(** * sand-go: the token broker and its retry engine (sand.go)

    A shallow embedding of [Client.cacheKey], [Client.oauthToken],
    [Client.Token] and [Client.RequestWithCustomRetry].

    The collaborators of the client (the cache backend, the OAuth2 token
    endpoint, the wall clock and the caller's [exec] callback) are modelled
    as functions of the interaction history: what they answer may depend on
    everything the client did so far.  Every effect of the client is an
    [event]; a computation reads the history up to its start and returns the
    events it adds, in order.

    Integers are Go's on a 64-bit platform: [int], [int64] and
    [time.Duration] are 64-bit two's complement and wrap around. *)

From Stdlib Require Import ZArith List String Ascii Bool Lia Permutation.
Import ListNotations.
Open Scope string_scope.
Open Scope list_scope.
Open Scope Z_scope.

(** ** Machine integers and durations *)

Definition wrap64 (z : Z) : Z := (z + 2 ^ 63) mod 2 ^ 64 - 2 ^ 63.

Definition minInt64 : Z := - 2 ^ 63.
Definition maxInt64 : Z := 2 ^ 63 - 1.

(** [time.Second], in nanoseconds, the unit of [time.Duration]. *)
Definition Second : Z := 1000000000.

(** [a * b] on [time.Duration]. *)
Definition durMul (a b : Z) : Z := wrap64 (a * b).

(** [http.StatusUnauthorized]. *)
Definition StatusUnauthorized : Z := 401.

(** [time.Duration(math.Pow(2, float64(retry)))]: the power is exact in a
    float64, and the conversion to int64 is exact while it fits; beyond,
    the conversion yields the minimal int64 (amd64). *)
Definition pow2Duration (retry : Z) : Z :=
  if retry <? 63 then 2 ^ retry else minInt64.

(** ** Data *)

(** [time.Time], by what the client observes of it: [Unix()] and the
    nanosecond part. The zero [Time] is January 1, year 1, 00:00:00 UTC. *)
Record Time := { Unix : Z; Nanosecond : Z }.

Definition zeroTimeUnix : Z := -62135596800.

Definition IsZero (t : Time) : bool :=
  (Unix t =? zeroTimeUnix) && (Nanosecond t =? 0).

(** [oauth2.Token]. *)
Record Token_t := { AccessToken : string; Expiry : Time }.

(** Modelled from the spec: the declaration of [AuthenticationError] is not
    part of sand.go; an authentication failure carries the message of its
    cause. [OtherError] is any other value of Go's [error]: one made by
    [errors.New], a transport error of the endpoint or of the callback. *)
Inductive error :=
| OtherError (msg : string)
| AuthenticationError (msg : string).

Definition Error (e : error) : string :=
  match e with
  | OtherError m => m
  | AuthenticationError m => m
  end.

(** [http.Response]: the status code and the rest of the response. *)
Record Response := { StatusCode : Z; Body : string }.

(** What [clientcredentials.Config] is built from in [oauthToken]. *)
Record ExchangeRequest := {
  reqClientID : string;
  reqClientSecret : string;
  reqTokenURL : string;
  reqScopes : list string;
  reqInsecureSkipVerify : bool
}.

Inductive event :=
| EvCacheRead (key : string)
| EvCacheWrite (key value : string) (ttl : Z)
| EvCacheDelete (key : string)
| EvExchange (req : ExchangeRequest)
| EvWarn (sec : Z) (cause : string)
| EvSleep (d : Z)
| EvExec (token : string).

Definition History := list event.

(** Modelled from the spec: the cache package is not part of sand.go. The
    cache capability is [read(key) -> value|absent], [write(key, value, ttl)]
    and [delete(key)], and the values stored are bare token strings. Writes and
    deletes are events; what a read answers is up to the backend. *)
Record cache_Cache := { Read : History -> string -> option string }.

Record Client := {
  ClientID : string;
  ClientSecret : string;
  TokenURL : string;
  SkipTLSVerify : bool;
  MaxRetry : Z;
  Cache : option cache_Cache;
  CacheRoot : string;
  cacheType : string
}.

(** The token endpoint ([config.Token(ctx)] returns a token pointer and an
    error) and the wall clock ([time.Now()]). *)
Record Env := {
  authority : ExchangeRequest -> History -> option Token_t * option error;
  clock : History -> Time
}.

(** The caller's callback: it takes the token and returns a response
    pointer and an error. *)
Definition Exec := History -> string -> option Response * option error.

(** ** Effects

    A computation is given the history so far; it yields [None] when it
    panics (a nil pointer dereference), together with the events it added. *)

Definition M (A : Type) : Type := History -> option A * list event.

Definition ret {A} (a : A) : M A := fun _ => (Some a, []).

Definition bind {A B} (m : M A) (f : A -> M B) : M B :=
  fun h =>
    match m h with
    | (Some a, e1) =>
        match f a (h ++ e1) with
        | (r, e2) => (r, e1 ++ e2)
        end
    | (None, e1) => (None, e1)
    end.

Notation "x <- m ;; k" := (bind m (fun x => k))
  (at level 61, m at next level, right associativity).
Notation "' pat <- m ;; k" := (bind m (fun x => match x with pat => k end))
  (at level 61, pat pattern, m at next level, right associativity).
Notation "m ;;; k" := (bind m (fun _ => k))
  (at level 61, right associativity).

Definition emit (e : event) : M unit := fun _ => (Some tt, [e]).

Definition panic {A} : M A := fun _ => (None, []).

(** Dereference of a pointer that may be nil. *)
Definition deref {A} (p : option A) : M A :=
  match p with
  | Some a => ret a
  | None => panic
  end.

Definition cacheRead (ca : cache_Cache) (key : string) : M (option string) :=
  fun h => (Some (Read ca h key), [EvCacheRead key]).

Definition cacheWrite (key value : string) (ttl : Z) : M unit :=
  emit (EvCacheWrite key value ttl).

Definition cacheDelete (key : string) : M unit := emit (EvCacheDelete key).

Definition timeSleep (d : Z) : M unit := emit (EvSleep d).

Definition timeNow (env : Env) : M Time := fun h => (Some (clock env h), []).

Definition configToken (env : Env) (req : ExchangeRequest)
  : M (option Token_t * option error) :=
  fun h => (Some (authority env req h), [EvExchange req]).

Definition callExec (exec : Exec) (token : string)
  : M (option Response * option error) :=
  fun h => (Some (exec h token), [EvExec token]).

(** ** The client *)

Definition NewClient (id secret tokenURL : string)
  : option Client * option error :=
  if (id =? "")%string || (secret =? "")%string || (tokenURL =? "")%string
  then (None, Some (OtherError "NewClient: missing required argument(s)"))
  else (Some {| ClientID := id; ClientSecret := secret; TokenURL := tokenURL;
                SkipTLSVerify := false; MaxRetry := 5; Cache := None;
                CacheRoot := "sand"; cacheType := "resources" |}, None).

(** [strings.Join]. *)
Fixpoint Join (elems : list string) (sep : string) : string :=
  match elems with
  | [] => ""
  | [x] => x
  | x :: rest => (x ++ sep ++ Join rest sep)%string
  end.

Definition cacheKey (c : Client) (key : string) (scopes : list string) : string :=
  let rv := (CacheRoot c ++ "/" ++ cacheType c ++ "/" ++ key)%string in
  if 0 <? Z.of_nat (List.length scopes)
  then (rv ++ "/" ++ Join scopes "_")%string
  else rv.

(** The retry loop of [oauthToken]:
    [for retry := 0; err != nil && retry < numRetry; retry++].
    [remaining] is [numRetry - retry], so [retry < numRetry] is
    [remaining] being a successor. *)
Fixpoint exchangeRetry (env : Env) (req : ExchangeRequest) (remaining : nat)
    (retry : Z) (r : option Token_t * option error)
  : M (option Token_t * option error) :=
  match snd r, remaining with
  | Some err, S k =>
      let sleep := pow2Duration retry in
      emit (EvWarn sleep (Error err)) ;;;
      timeSleep (durMul sleep Second) ;;;
      r' <- configToken env req ;;
      exchangeRetry env req k (retry + 1) r'
  | _, _ => ret r
  end.

Definition oauthToken (env : Env) (c : Client) (scopes : list string)
    (numRetry : Z) : M (option Token_t * option error) :=
  let numRetry := if numRetry <? 0 then MaxRetry c else numRetry in
  let config := {| reqClientID := ClientID c;
                   reqClientSecret := ClientSecret c;
                   reqTokenURL := TokenURL c;
                   reqScopes := scopes;
                   reqInsecureSkipVerify := SkipTLSVerify c |} in
  r <- configToken env config ;;
  r <- (match snd r with
        | Some _ =>
            if 0 <? numRetry
            then exchangeRetry env config (Z.to_nat numRetry) 0 r
            else ret r
        | None => ret r
        end) ;;
  match snd r with
  | Some err => ret (fst r, Some (AuthenticationError (Error err)))
  | None => ret r
  end.

Definition Token (env : Env) (c : Client) (key : string)
    (scopes : list string) (numRetry : Z) : M (string * option error) :=
  cached <- (match Cache c with
             | Some ca =>
                 if (key =? "")%string then ret None
                 else cacheRead ca (cacheKey c key scopes)
             | None => ret None
             end) ;;
  match cached with
  | Some token => ret (token, None)
  | None =>
      ' (token, err) <- oauthToken env c scopes numRetry ;;
      match err with
      | Some e => ret ("", Some e)
      | None =>
          tok <- deref token ;;
          if (AccessToken tok =? "")%string
          then ret ("", Some (AuthenticationError "Invalid access token"))
          else
            (match Cache c with
             | Some _ =>
                 if (key =? "")%string then ret tt
                 else
                   expiresIn <-
                     (if negb (IsZero (Expiry tok))
                      then now <- timeNow env ;;
                           ret (wrap64 (Unix (Expiry tok) - Unix now))
                      else ret 0) ;;
                   if 0 <=? expiresIn
                   then cacheWrite (cacheKey c key scopes) (AccessToken tok)
                          (durMul expiresIn Second)
                   else ret tt
             | None => ret tt
             end) ;;;
            ret (AccessToken tok, None)
      end
  end.

(** The retry loop of [RequestWithCustomRetry]:
    [for retry := 0; resp.StatusCode == 401 && retry < numRetry; retry++],
    with [remaining = numRetry - retry]. The status of [resp] is read
    first, and [resp] may be nil. *)
Fixpoint requestRetry (env : Env) (c : Client) (key : string)
    (scopes : list string) (exec : Exec) (remaining : nat) (retry : Z)
    (resp : option Response) : M (option Response * option error) :=
  r <- deref resp ;;
  if StatusCode r =? StatusUnauthorized then
    match remaining with
    | S k =>
        let sleep := pow2Duration retry in
        emit (EvWarn sleep "401") ;;;
        timeSleep (durMul sleep Second) ;;;
        (match Cache c with
         | Some _ => cacheDelete (cacheKey c key scopes)
         | None => ret tt
         end) ;;;
        ' (token, err) <- Token env c key scopes 0 ;;
        match err with
        | Some e => ret (resp, Some e)
        | None =>
            ' (resp', err') <- callExec exec token ;;
            match err' with
            | Some e => ret (resp', Some e)
            | None => requestRetry env c key scopes exec k (retry + 1) resp'
            end
        end
    | O => ret (resp, None)
    end
  else ret (resp, None).

Definition RequestWithCustomRetry (env : Env) (c : Client) (key : string)
    (scopes : list string) (numRetry : Z) (exec : Exec)
  : M (option Response * option error) :=
  let numRetry := if numRetry <? 0 then MaxRetry c else numRetry in
  ' (token, err) <- Token env c key scopes numRetry ;;
  match err with
  | Some e => ret (None, Some e)
  | None =>
      ' (resp, err) <- callExec exec token ;;
      match err with
      | Some e => ret (resp, Some e)
      | None =>
          if 0 <? numRetry
          then requestRetry env c key scopes exec (Z.to_nat numRetry) 0 resp
          else ret (resp, None)
      end
  end.

Definition Request (env : Env) (c : Client) (key : string)
    (scopes : list string) (exec : Exec)
  : M (option Response * option error) :=
  RequestWithCustomRetry env c key scopes (MaxRetry c) exec.

(** ** Observations on event lists *)

Definition sleeps (evs : list event) : list Z :=
  flat_map (fun e => match e with EvSleep d => [d] | _ => [] end) evs.

Definition evictions (evs : list event) : list string :=
  flat_map (fun e => match e with EvCacheDelete k => [k] | _ => [] end) evs.

Definition isExec (e : event) : bool :=
  match e with EvExec _ => true | _ => false end.

Definition isExchange (e : event) : bool :=
  match e with EvExchange _ => true | _ => false end.

Definition isCacheEvent (e : event) : bool :=
  match e with
  | EvCacheRead _ | EvCacheWrite _ _ _ | EvCacheDelete _ => true
  | _ => false
  end.

(** What the exchanger does: exchanges, warnings and sleeps. *)
Definition isExchangerEvent (e : event) : bool :=
  match e with
  | EvExchange _ | EvWarn _ _ | EvSleep _ => true
  | _ => false
  end.

(** What [Token] does: cache reads and writes, and what the exchanger does. *)
Definition isTokenEvent (e : event) : bool :=
  match e with
  | EvCacheRead _ | EvCacheWrite _ _ _ => true
  | _ => isExchangerEvent e
  end.

(** What [Token] does when the exchange does not retry. *)
Definition isFetchEvent (e : event) : bool :=
  match e with
  | EvCacheRead _ | EvCacheWrite _ _ _ | EvExchange _ => true
  | _ => false
  end.

Definition isCacheWrite (e : event) : bool :=
  match e with EvCacheWrite _ _ _ => true | _ => false end.

Definition execCount (evs : list event) : nat :=
  List.length (filter isExec evs).

Definition exchangeCount (evs : list event) : nat :=
  List.length (filter isExchange evs).

(** The events of the cache lookup that opens [Token], and when that lookup
    does not answer the call. *)
Definition exchangeRequest (c : Client) (scopes : list string) : ExchangeRequest :=
  {| reqClientID := ClientID c; reqClientSecret := ClientSecret c;
     reqTokenURL := TokenURL c; reqScopes := scopes;
     reqInsecureSkipVerify := SkipTLSVerify c |}.

Definition lookupEvents (c : Client) (key : string) (scopes : list string)
  : list event :=
  match Cache c with
  | Some _ => if (key =? "")%string then [] else [EvCacheRead (cacheKey c key scopes)]
  | None => []
  end.

Definition cacheMiss (c : Client) (key : string) (scopes : list string)
    (h : History) : Prop :=
  match Cache c with
  | Some ca => key = "" \/ Read ca h (cacheKey c key scopes) = None
  | None => True
  end.

(** What one round of the retry loop of [RequestWithCustomRetry] does before
    it fetches a token. *)
Definition retryPrelude (c : Client) (key : string) (scopes : list string)
    (retry : Z) : list event :=
  [EvWarn (pow2Duration retry) "401";
   EvSleep (durMul (pow2Duration retry) Second)]
  ++ match Cache c with
     | Some _ => [EvCacheDelete (cacheKey c key scopes)]
     | None => []
     end.

(** In the events [evs] added to [h], a call of [exec] that returned an
    error is the last event, and what it returned is the result [res]. *)
Definition execErrorIsFinal (exec : Exec) (h : History) (evs : list event)
    (res : option (option Response * option error)) : Prop :=
  forall i tok e,
    nth_error evs i = Some (EvExec tok) ->
    snd (exec (h ++ firstn i evs) tok) = Some e ->
    evs = firstn i evs ++ [EvExec tok]
    /\ res = Some (exec (h ++ firstn i evs) tok).

(** A scope that does not contain the separator of [cacheKey]. *)
Fixpoint noUnderscore (s : string) : bool :=
  match s with
  | EmptyString => true
  | String ch rest => negb (Ascii.eqb ch "_") && noUnderscore rest
  end.

(** ** Scenarios: concrete collaborators *)

(** An in-memory cache that never expires an entry: a read answers the last
    write to the key that no delete followed. *)
Fixpoint replay (h : History) (k : string) (cur : option string)
  : option string :=
  match h with
  | [] => cur
  | EvCacheWrite k' v _ :: t =>
      replay t k (if (k' =? k)%string then Some v else cur)
  | EvCacheDelete k' :: t =>
      replay t k (if (k' =? k)%string then None else cur)
  | _ :: t => replay t k cur
  end.

Definition memoryCache : cache_Cache := {| Read h k := replay h k None |}.

Definition sampleClient (ca : option cache_Cache) : Client :=
  {| ClientID := "id"; ClientSecret := "secret";
     TokenURL := "https://oauth.example.com/oauth2/token";
     SkipTLSVerify := false; MaxRetry := 5; Cache := ca;
     CacheRoot := "sand"; cacheType := "resources" |}.

Definition zeroTime : Time := {| Unix := zeroTimeUnix; Nanosecond := 0 |}.

(** An endpoint that grants [tok] at every attempt, at a clock that stands
    at [now] seconds. *)
Definition grantingEnv (tok : Token_t) (now : Z) : Env :=
  {| authority := fun _ _ => (Some tok, None);
     clock := fun _ => {| Unix := now; Nanosecond := 0 |} |}.

(** An endpoint that refuses every attempt; the message tells the attempt. *)
Definition refusingEnv : Env :=
  {| authority := fun _ h =>
       (None, Some (OtherError
                      (match exchangeCount h with
                       | 3%nat => "refused (4)"
                       | _ => "refused"
                       end)));
     clock := fun _ => {| Unix := 1700000000; Nanosecond := 0 |} |}.

Definition unauthorized : Response := {| StatusCode := 401; Body := "denied" |}.
Definition success : Response := {| StatusCode := 200; Body := "ok" |}.

(** A service that answers 401 to its first [n] calls and 200 afterwards. *)
Definition staleService (n : nat) : Exec :=
  fun h _ =>
    if (execCount h <? n)%nat then (Some unauthorized, None)
    else (Some success, None).

(** A service whose second call fails in transport. *)
Definition brokenService : Exec :=
  fun h _ =>
    match execCount h with
    | 0%nat => (Some unauthorized, None)
    | _ => (None, Some (OtherError "connection reset"))
    end.

(** Tokens for the scenarios; the clock of the scenarios stands at
    1700000000. *)
Definition tokenExpiringIn (d : Z) : Token_t :=
  {| AccessToken := "T";
     Expiry := {| Unix := 1700000000 + d; Nanosecond := 0 |} |}.

Definition tokenForever : Token_t := {| AccessToken := "T"; Expiry := zeroTime |}.

Definition emptyToken : Token_t := {| AccessToken := ""; Expiry := zeroTime |}.

Definition sampleRequest (scopes : list string) : ExchangeRequest :=
  {| reqClientID := "id"; reqClientSecret := "secret";
     reqTokenURL := "https://oauth.example.com/oauth2/token";
     reqScopes := scopes; reqInsecureSkipVerify := false |}.

(** ** Further observations and scenarios *)

(** The retry budget in force: a negative [numRetry] stands for [MaxRetry]. *)
Definition retryBudget (c : Client) (numRetry : Z) : Z :=
  if numRetry <? 0 then MaxRetry c else numRetry.

(** The sleeps of [n] consecutive rounds of a retry loop, from index
    [retry] on. *)
Fixpoint backoffs (retry : Z) (n : nat) : list Z :=
  match n with
  | O => []
  | S k => durMul (pow2Duration retry) Second :: backoffs (retry + 1) k
  end.

(** A caller key that does not contain the separator of the key's parts. *)
Fixpoint noSlash (s : string) : bool :=
  match s with
  | EmptyString => true
  | String ch rest => negb (Ascii.eqb ch "/") && noSlash rest
  end.

(** An endpoint that refuses its first [k] attempts and grants [tok] from
    then on. *)
Definition flakyEnv (k : nat) (tok : Token_t) : Env :=
  {| authority := fun _ h =>
       if (exchangeCount h <? k)%nat
       then (None, Some (OtherError "unavailable"))
       else (Some tok, None);
     clock := fun _ => {| Unix := 1700000000; Nanosecond := 0 |} |}.

Definition badGateway : Response := {| StatusCode := 502; Body := "bad gateway" |}.

(** A service that answers [r] to every call. *)
Definition constService (r : option Response) : Exec :=
  fun _ _ => (r, None).

(** An endpoint that grants [tok] at its first attempt and refuses afterwards. *)
Definition revokingEnv (tok : Token_t) : Env :=
  {| authority := fun _ h =>
       match exchangeCount h with
       | O => (Some tok, None)
       | _ => (None, Some (OtherError "revoked"))
       end;
     clock := fun _ => {| Unix := 1700000000; Nanosecond := 0 |} |}.

(** An event that is not on the cache, or is on the entry [k] of it. *)
Definition onCacheKey (k : string) (e : event) : Prop :=
  match e with
  | EvCacheRead k' | EvCacheWrite k' _ _ | EvCacheDelete k' => k' = k
  | _ => True
  end.

(** A cache that answers a read of [k] that directly follows a write of [k]
    with the value written, and one that answers a read of [k] that
    directly follows a delete of [k] with nothing. *)
Definition readsLastWrite (ca : cache_Cache) (k : string) : Prop :=
  forall h v ttl, Read ca (h ++ [EvCacheWrite k v ttl]) k = Some v.

Definition honoursDelete (ca : cache_Cache) (k : string) : Prop :=
  forall h, Read ca (h ++ [EvCacheDelete k]) k = None.

(** * Properties *)

(** ** Strings and the cache key *)

Lemma append_empty_r (s : string) : (s ++ "")%string = s.
Proof. induction s as [|ch s IH]; simpl; [reflexivity | now rewrite IH]. Qed.

Lemma append_assoc (a b c : string) :
  ((a ++ b) ++ c)%string = (a ++ b ++ c)%string.
Proof. induction a as [|ch a IH]; simpl; [reflexivity | now rewrite IH]. Qed.

Lemma append_inv_head (p a b : string) :
  (p ++ a)%string = (p ++ b)%string -> a = b.
Proof.
  induction p as [|ch p IH]; simpl; intros H; [exact H|].
  injection H as H. now apply IH.
Qed.

Lemma noUnderscore_sep (a r : string) :
  noUnderscore (a ++ "_" ++ r) = false.
Proof.
  induction a as [|ch a IH]; [reflexivity|].
  change (negb (Ascii.eqb ch "_") && noUnderscore (a ++ "_" ++ r) = false).
  rewrite IH. apply andb_false_r.
Qed.

Lemma sep_split (a b r1 r2 : string) :
  noUnderscore a = true -> noUnderscore b = true ->
  (a ++ "_" ++ r1)%string = (b ++ "_" ++ r2)%string -> a = b /\ r1 = r2.
Proof.
  revert b. induction a as [|ch a IH]; intros [|ch' b] Ha Hb H; simpl in *.
  - injection H as H. now split.
  - injection H as Hc _. subst ch'. discriminate Hb.
  - injection H as Hc _. subst ch. discriminate Ha.
  - injection H as Hc H. subst ch'.
    apply andb_true_iff in Ha as [_ Ha]. apply andb_true_iff in Hb as [_ Hb].
    destruct (IH b Ha Hb H) as [-> ->]. now split.
Qed.

Lemma Join_cons2 (x y : string) (l : list string) (sep : string) :
  Join (x :: y :: l) sep = (x ++ sep ++ Join (y :: l) sep)%string.
Proof. reflexivity. Qed.

(** [strings.Join] with ["_"] is injective on non-empty lists of scopes
    that do not contain ["_"]. *)
Lemma Join_underscore_inj (l1 l2 : list string) :
  Forall (fun s => noUnderscore s = true) l1 ->
  Forall (fun s => noUnderscore s = true) l2 ->
  l1 <> [] -> l2 <> [] ->
  Join l1 "_" = Join l2 "_" -> l1 = l2.
Proof.
  revert l2. induction l1 as [|x l1 IH]; intros l2 H1 H2 N1 N2 HJ;
    [congruence|].
  destruct l2 as [|y l2]; [congruence|].
  inversion H1 as [|? ? Hx H1']; subst. inversion H2 as [|? ? Hy H2']; subst.
  destruct l1 as [|x' l1], l2 as [|y' l2].
  - simpl in HJ. now subst.
  - rewrite Join_cons2 in HJ. simpl (Join [x] _) in HJ. subst x.
    rewrite noUnderscore_sep in Hx. discriminate.
  - rewrite Join_cons2 in HJ. simpl (Join [y] _) in HJ. subst y.
    rewrite noUnderscore_sep in Hy. discriminate.
  - rewrite !Join_cons2 in HJ.
    destruct (sep_split _ _ _ _ Hx Hy HJ) as [-> HJ'].
    f_equal. apply IH; auto; discriminate.
Qed.

Lemma cacheKey_nil (c : Client) (key : string) :
  cacheKey c key [] = (CacheRoot c ++ "/" ++ cacheType c ++ "/" ++ key)%string.
Proof. reflexivity. Qed.

Lemma cacheKey_cons (c : Client) (key s : string) (scopes : list string) :
  cacheKey c key (s :: scopes) =
  ((CacheRoot c ++ "/" ++ cacheType c ++ "/" ++ key) ++ "/"
     ++ Join (s :: scopes) "_")%string.
Proof.
  unfold cacheKey. change (List.length (s :: scopes)) with (S (List.length scopes)).
  destruct (0 <? Z.of_nat (S (List.length scopes))) eqn:E; [reflexivity|].
  apply Z.ltb_ge in E. lia.
Qed.

(** Two different lists of scopes without ["_"] never share a key. *)
Lemma cacheKey_scopes_inj (c : Client) (key : string) (s1 s2 : list string) :
  Forall (fun s => noUnderscore s = true) s1 ->
  Forall (fun s => noUnderscore s = true) s2 ->
  cacheKey c key s1 = cacheKey c key s2 -> s1 = s2.
Proof.
  intros H1 H2 HK.
  destruct s1 as [|x s1], s2 as [|y s2]; [reflexivity| | |].
  - rewrite cacheKey_nil, cacheKey_cons in HK.
    rewrite <- (append_empty_r (_ ++ "/" ++ cacheType c ++ "/" ++ key)) in HK at 1.
    apply append_inv_head in HK. discriminate HK.
  - rewrite cacheKey_nil, cacheKey_cons in HK.
    rewrite <- (append_empty_r (_ ++ "/" ++ cacheType c ++ "/" ++ key)) in HK at 2.
    apply append_inv_head in HK. discriminate HK.
  - rewrite !cacheKey_cons in HK.
    apply append_inv_head in HK. simpl in HK. injection HK as HK.
    apply Join_underscore_inj; auto; discriminate.
Qed.

(** C9 (as stated, refuted): two orderings of the distinct scopes ["a"] and
    ["a_a"] are joined to the same string, so reordering distinct scopes does
    not always change the key. *)
Lemma cacheKey_reorder_collision :
  ~ (forall (c : Client) (key : string) (s1 s2 : list string),
       NoDup s1 -> Permutation s1 s2 -> s1 <> s2 ->
       cacheKey c key s1 <> cacheKey c key s2).
Proof.
  intros H.
  apply (H (sampleClient None) "k" ["a"; "a_a"] ["a_a"; "a"]).
  - repeat constructor; simpl; intuition discriminate.
  - apply perm_swap.
  - discriminate.
  - reflexivity.
Qed.

(** C9 (amended): [cacheKey] is [root/class/key] for no scopes and
    [root/class/key/s1_s2_...] otherwise, scopes joined in the order given; it
    is a function of its inputs; and reordering distinct scopes none of which
    contains ["_"] changes the key. *)
Theorem cacheKey_deterministic_order_sensitive :
  (forall c key,
     cacheKey c key [] = (CacheRoot c ++ "/" ++ cacheType c ++ "/" ++ key)%string)
  /\ (forall c key scopes, scopes <> [] ->
        cacheKey c key scopes =
        ((CacheRoot c ++ "/" ++ cacheType c ++ "/" ++ key) ++ "/"
           ++ Join scopes "_")%string)
  /\ (forall c c' key key' scopes scopes',
        CacheRoot c = CacheRoot c' -> cacheType c = cacheType c' ->
        key = key' -> scopes = scopes' ->
        cacheKey c key scopes = cacheKey c' key' scopes')
  /\ (forall c key s1 s2,
        NoDup s1 -> Permutation s1 s2 -> s1 <> s2 ->
        Forall (fun s => noUnderscore s = true) s1 ->
        cacheKey c key s1 <> cacheKey c key s2).
Proof.
  split; [|split; [|split]].
  - intros. apply cacheKey_nil.
  - intros c key [|s scopes] N; [congruence|]. apply cacheKey_cons.
  - intros c c' key key' scopes scopes' Hr Ht -> ->.
    unfold cacheKey. now rewrite Hr, Ht.
  - intros c key s1 s2 _ HP N H1 HK. apply N.
    apply (cacheKey_scopes_inj c key); auto.
    rewrite Forall_forall in *. intros s Hs. apply H1.
    apply Permutation_in with (l := s2); [now apply Permutation_sym | exact Hs].
Qed.

Lemma cacheKey_deterministic_order_sensitive_witness :
  cacheKey (sampleClient None) "svc" ["read"; "write"] = "sand/resources/svc/read_write"
  /\ cacheKey (sampleClient None) "svc" ["read"; "write"]
     <> cacheKey (sampleClient None) "svc" ["write"; "read"].
Proof.
  destruct cacheKey_deterministic_order_sensitive as (_ & H2 & _ & H4).
  split.
  - rewrite H2; [reflexivity | discriminate].
  - apply H4.
    + repeat constructor; simpl; intuition discriminate.
    + apply perm_swap.
    + discriminate.
    + repeat constructor.
Defined.

(** ** Machine arithmetic *)

Lemma wrap64_small (z : Z) : - 2 ^ 63 <= z < 2 ^ 63 -> wrap64 z = z.
Proof.
  intros H. unfold wrap64. rewrite Z.mod_small; lia.
Qed.

Lemma durMul_seconds (d : Z) :
  0 <= d <= 9223372036 -> durMul d Second = d * Second.
Proof.
  intros H. unfold durMul, Second. apply wrap64_small. lia.
Qed.

(** ** The token broker *)

Lemma nonempty_eqb (s : string) : s <> "" -> (s =? "")%string = false.
Proof. intros H. now apply String.eqb_neq. Qed.

(** [Token] on a cache hit. *)
Lemma Token_hit_run (env : Env) (c : Client) (ca : cache_Cache)
    (key : string) (scopes : list string) (numRetry : Z) (h : History)
    (t : string) :
  Cache c = Some ca -> key <> "" ->
  Read ca h (cacheKey c key scopes) = Some t ->
  Token env c key scopes numRetry h
  = (Some (t, None), [EvCacheRead (cacheKey c key scopes)]).
Proof.
  intros HC HK HR. unfold Token, bind, cacheRead.
  rewrite HC, (nonempty_eqb _ HK), HR. reflexivity.
Qed.

(** C5: with a cache configured and a non-empty caller key, a cache read that
    answers a value is the whole of [Token]: the value is returned with a
    nil error, and the read is the only event, so there is no exchange, no
    cache write and no cache delete (and the clock, which has no event, is
    read only on the path after an exchange). *)
Theorem Token_cache_hit (env : Env) (c : Client) (ca : cache_Cache)
    (key : string) (scopes : list string) (numRetry : Z) (h : History)
    (t : string) :
  Cache c = Some ca -> key <> "" ->
  Read ca h (cacheKey c key scopes) = Some t ->
  Token env c key scopes numRetry h
  = (Some (t, None), [EvCacheRead (cacheKey c key scopes)])
  /\ exchangeCount (snd (Token env c key scopes numRetry h)) = 0%nat
  /\ filter isCacheWrite (snd (Token env c key scopes numRetry h)) = []
  /\ evictions (snd (Token env c key scopes numRetry h)) = [].
Proof.
  intros HC HK HR.
  rewrite (Token_hit_run env c ca key scopes numRetry h t HC HK HR).
  repeat split.
Qed.

Lemma Token_cache_hit_witness :
  Token refusingEnv (sampleClient (Some memoryCache)) "svc" ["s1"] 3
    [EvCacheWrite "sand/resources/svc/s1" "T1" 0]
  = (Some ("T1", None), [EvCacheRead "sand/resources/svc/s1"]).
Proof.
  refine (proj1 (Token_cache_hit refusingEnv (sampleClient (Some memoryCache))
           memoryCache "svc" ["s1"] 3 _ "T1" _ _ _)).
  - reflexivity.
  - discriminate.
  - reflexivity.
Defined.

(** [Token] after a cache miss and an exchange that returned a non-empty
    token: the remaining lifetime in seconds, as a wrapped 64-bit integer,
    decides the write. *)
Lemma Token_miss_run (env : Env) (c : Client) (ca : cache_Cache)
    (key : string) (scopes : list string) (numRetry : Z) (h : History)
    (tok : Token_t) (e1 : list event) :
  Cache c = Some ca -> key <> "" ->
  Read ca h (cacheKey c key scopes) = None ->
  oauthToken env c scopes numRetry (h ++ [EvCacheRead (cacheKey c key scopes)])
  = (Some (Some tok, None), e1) ->
  AccessToken tok <> "" ->
  let k := cacheKey c key scopes in
  let expiresIn :=
    if IsZero (Expiry tok) then 0
    else wrap64 (Unix (Expiry tok) - Unix (clock env (h ++ EvCacheRead k :: e1))) in
  Token env c key scopes numRetry h
  = (Some (AccessToken tok, None),
     EvCacheRead k :: e1 ++
       (if 0 <=? expiresIn
        then [EvCacheWrite k (AccessToken tok) (durMul expiresIn Second)]
        else [])).
Proof.
  intros HC HK HR HO HT k expiresIn. unfold Token, bind, cacheRead.
  rewrite HC, (nonempty_eqb _ HK), HR, HO. cbn [deref ret].
  rewrite (nonempty_eqb _ HT). subst expiresIn k.
  rewrite !app_nil_r, <- !app_assoc. cbn [app].
  destruct (IsZero (Expiry tok)); cbn [negb timeNow ret]; rewrite ?app_nil_r.
  - reflexivity.
  - destruct (0 <=? wrap64 _); reflexivity.
Qed.

(** C6 (as stated, refuted): a token that expires 9223372037 seconds after
    the clock read is written with a negative duration, not with 9223372037
    seconds: that many seconds do not fit the 64-bit nanoseconds of a
    duration. *)
Lemma Token_ttl_overflow :
  ~ (forall env c ca key scopes numRetry h tok e1,
       Cache c = Some ca -> key <> "" ->
       Read ca h (cacheKey c key scopes) = None ->
       oauthToken env c scopes numRetry
         (h ++ [EvCacheRead (cacheKey c key scopes)])
       = (Some (Some tok, None), e1) ->
       AccessToken tok <> "" ->
       IsZero (Expiry tok) = false ->
       let k := cacheKey c key scopes in
       let d := Unix (Expiry tok) - Unix (clock env (h ++ EvCacheRead k :: e1)) in
       0 <= d ->
       Token env c key scopes numRetry h
       = (Some (AccessToken tok, None),
          EvCacheRead k :: e1 ++ [EvCacheWrite k (AccessToken tok) (d * Second)])).
Proof.
  intros H.
  specialize (H (grantingEnv (tokenExpiringIn 9223372037) 1700000000)
                (sampleClient (Some memoryCache)) memoryCache "svc" [] 0 []
                (tokenExpiringIn 9223372037) [EvExchange (sampleRequest [])]).
  assert (C : Token (grantingEnv (tokenExpiringIn 9223372037) 1700000000)
                (sampleClient (Some memoryCache)) "svc" [] 0 []
              = (Some ("T", None),
                 [EvCacheRead "sand/resources/svc";
                  EvExchange (sampleRequest []);
                  EvCacheWrite "sand/resources/svc" "T" (-9223372036709551616)]))
    by (vm_compute; reflexivity).
  rewrite C in H.
  assert (E : (Some ("T", @None error),
               [EvCacheRead "sand/resources/svc"; EvExchange (sampleRequest []);
                EvCacheWrite "sand/resources/svc" "T" (-9223372036709551616)])
              = (Some ("T", None),
                 [EvCacheRead "sand/resources/svc"; EvExchange (sampleRequest []);
                  EvCacheWrite "sand/resources/svc" "T" (9223372037 * Second)])).
  { apply H; try reflexivity; discriminate. }
  vm_compute in E. discriminate E.
Qed.

(** C6 (amended): after a cache miss (cache configured, non-empty caller
    key) and an exchange that returned a non-empty token, [Token] returns the
    token string, and: a non-zero expiry [d] seconds after the clock read, with
    [0 <= d <= 9223372036] (what fits a duration), writes the token with a TTL
    of [d] seconds; a zero expiry writes it with TTL 0 (unlimited); a non-zero
    expiry before the clock read, by at most [2^63] seconds, writes nothing. *)
Theorem Token_cache_write_ttl (env : Env) (c : Client) (ca : cache_Cache)
    (key : string) (scopes : list string) (numRetry : Z) (h : History)
    (tok : Token_t) (e1 : list event) :
  Cache c = Some ca -> key <> "" ->
  Read ca h (cacheKey c key scopes) = None ->
  oauthToken env c scopes numRetry (h ++ [EvCacheRead (cacheKey c key scopes)])
  = (Some (Some tok, None), e1) ->
  AccessToken tok <> "" ->
  let k := cacheKey c key scopes in
  let d := Unix (Expiry tok) - Unix (clock env (h ++ EvCacheRead k :: e1)) in
  (IsZero (Expiry tok) = false -> 0 <= d <= 9223372036 ->
   Token env c key scopes numRetry h
   = (Some (AccessToken tok, None),
      EvCacheRead k :: e1 ++ [EvCacheWrite k (AccessToken tok) (d * Second)]))
  /\ (IsZero (Expiry tok) = true ->
      Token env c key scopes numRetry h
      = (Some (AccessToken tok, None),
         EvCacheRead k :: e1 ++ [EvCacheWrite k (AccessToken tok) 0]))
  /\ (IsZero (Expiry tok) = false -> - 2 ^ 63 <= d < 0 ->
      Token env c key scopes numRetry h
      = (Some (AccessToken tok, None), EvCacheRead k :: e1)).
Proof.
  intros HC HK HR HO HT k d.
  pose proof (Token_miss_run env c ca key scopes numRetry h tok e1
                HC HK HR HO HT) as R.
  cbv zeta in R. fold k in R. fold d in R.
  split; [|split].
  - intros HZ Hd. rewrite R, HZ.
    rewrite (wrap64_small d) by lia.
    destruct (0 <=? d) eqn:E; [|apply Z.leb_gt in E; lia].
    now rewrite durMul_seconds.
  - intros HZ. rewrite R, HZ. reflexivity.
  - intros HZ Hd. rewrite R, HZ.
    rewrite (wrap64_small d) by lia.
    destruct (0 <=? d) eqn:E; [apply Z.leb_le in E; lia|].
    now rewrite app_nil_r.
Qed.

Lemma Token_cache_write_ttl_witness :
  Token (grantingEnv (tokenExpiringIn 600) 1700000000)
    (sampleClient (Some memoryCache)) "svc" ["s1"] 0 []
  = (Some ("T", None),
     [EvCacheRead "sand/resources/svc/s1"; EvExchange (sampleRequest ["s1"]);
      EvCacheWrite "sand/resources/svc/s1" "T" (600 * Second)]).
Proof.
  apply (Token_cache_write_ttl (grantingEnv (tokenExpiringIn 600) 1700000000)
           (sampleClient (Some memoryCache)) memoryCache "svc" ["s1"] 0 []
           (tokenExpiringIn 600) [EvExchange (sampleRequest ["s1"])]).
  - reflexivity.
  - discriminate.
  - reflexivity.
  - reflexivity.
  - discriminate.
  - reflexivity.
  - vm_compute. split; discriminate.
Defined.

(** C10: after a cache miss and an exchange that returned a non-empty token,
    a non-zero expiry that equals the clock read gives a remaining lifetime of
    0 and a cache write with TTL 0, and that is the very write [Token] issues
    for a token with the same string and a zero expiry. *)
Theorem Token_expiring_now_written_as_unlimited (env env' : Env) (c : Client)
    (ca : cache_Cache) (key : string) (scopes : list string)
    (numRetry numRetry' : Z) (h h' : History) (tok tok' : Token_t)
    (e1 e1' : list event) :
  Cache c = Some ca -> key <> "" ->
  let k := cacheKey c key scopes in
  Read ca h k = None -> Read ca h' k = None ->
  oauthToken env c scopes numRetry (h ++ [EvCacheRead k])
  = (Some (Some tok, None), e1) ->
  oauthToken env' c scopes numRetry' (h' ++ [EvCacheRead k])
  = (Some (Some tok', None), e1') ->
  AccessToken tok <> "" -> AccessToken tok' = AccessToken tok ->
  IsZero (Expiry tok) = false ->
  Unix (Expiry tok) = Unix (clock env (h ++ EvCacheRead k :: e1)) ->
  IsZero (Expiry tok') = true ->
  let w := EvCacheWrite k (AccessToken tok) 0 in
  Token env c key scopes numRetry h
  = (Some (AccessToken tok, None), EvCacheRead k :: e1 ++ [w])
  /\ Token env' c key scopes numRetry' h'
     = (Some (AccessToken tok, None), EvCacheRead k :: e1' ++ [w]).
Proof.
  intros HC HK k HR HR' HO HO' HT HT' HZ HU HZ' w.
  assert (HTn : AccessToken tok' <> "") by congruence.
  split.
  - rewrite (Token_miss_run env c ca key scopes numRetry h tok e1
               HC HK HR HO HT).
    fold k. rewrite HZ, HU, Z.sub_diag. reflexivity.
  - rewrite (Token_miss_run env' c ca key scopes numRetry' h' tok' e1'
               HC HK HR' HO' HTn).
    fold k. rewrite HZ', HT'. reflexivity.
Qed.

Lemma Token_expiring_now_written_as_unlimited_witness :
  Token (grantingEnv (tokenExpiringIn 0) 1700000000)
    (sampleClient (Some memoryCache)) "svc" [] 0 []
  = (Some ("T", None),
     [EvCacheRead "sand/resources/svc"; EvExchange (sampleRequest []);
      EvCacheWrite "sand/resources/svc" "T" 0])
  /\ Token (grantingEnv tokenForever 1700000000)
       (sampleClient (Some memoryCache)) "svc" [] 0 []
     = (Some ("T", None),
        [EvCacheRead "sand/resources/svc"; EvExchange (sampleRequest []);
         EvCacheWrite "sand/resources/svc" "T" 0]).
Proof.
  apply (Token_expiring_now_written_as_unlimited
           (grantingEnv (tokenExpiringIn 0) 1700000000)
           (grantingEnv tokenForever 1700000000)
           (sampleClient (Some memoryCache)) memoryCache "svc" [] 0 0 [] []
           (tokenExpiringIn 0) tokenForever
           [EvExchange (sampleRequest [])] [EvExchange (sampleRequest [])]);
    try reflexivity; discriminate.
Defined.

(** A remaining lifetime below [-2^63] seconds wraps to a positive one, and
    the token is written although it expired. *)
Example Token_negative_lifetime_wraps :
  let tok := {| AccessToken := "T";
                Expiry := {| Unix := - 2 ^ 63 + 5; Nanosecond := 0 |} |} in
  Unix (Expiry tok) - 1700000000 < 0
  /\ filter isCacheWrite
       (snd (Token (grantingEnv tok 1700000000)
               (sampleClient (Some memoryCache)) "svc" [] 0 []))
     <> [].
Proof. vm_compute. split; [reflexivity | discriminate]. Qed.

(** *** The exchanger *)

Lemma exchangeRetry_events (env : Env) (req : ExchangeRequest)
    (remaining : nat) :
  forall retry r h,
    Forall (fun e => isExchangerEvent e = true)
      (snd (exchangeRetry env req remaining retry r h)).
Proof.
  induction remaining as [|k IH]; intros retry [t [e|]] h; simpl;
    try (constructor; fail).
  unfold bind, emit, timeSleep, configToken. cbn [emit].
  specialize (IH (retry + 1) (authority env req
    ((h ++ [EvWarn (pow2Duration retry) (Error e)]) ++
       [EvSleep (durMul (pow2Duration retry) Second)]))
    ((((h ++ [EvWarn (pow2Duration retry) (Error e)]) ++
       [EvSleep (durMul (pow2Duration retry) Second)])) ++ [EvExchange req])).
  destruct (exchangeRetry env req k _ _ _) as [res evs]. simpl in *.
  repeat constructor. exact IH.
Qed.

(** An exchange whose first attempt succeeds is returned as it is, whatever
    the token string. *)
Lemma oauthToken_first_attempt (env : Env) (c : Client) (scopes : list string)
    (numRetry : Z) (h : History) (tok : option Token_t) :
  authority env (exchangeRequest c scopes) h = (tok, None) ->
  oauthToken env c scopes numRetry h
  = (Some (tok, None), [EvExchange (exchangeRequest c scopes)]).
Proof.
  intros H. unfold oauthToken, bind, configToken.
  fold (exchangeRequest c scopes). rewrite H. reflexivity.
Qed.

Lemma oauthToken_events (env : Env) (c : Client)
    (scopes : list string) (numRetry : Z) (h : History) :
  Forall (fun e => isExchangerEvent e = true)
    (snd (oauthToken env c scopes numRetry h)).
Proof.
  unfold oauthToken, bind, configToken. fold (exchangeRequest c scopes).
  destruct (authority env (exchangeRequest c scopes) h) as [t [e|]];
    cbn [snd fst ret]; [|repeat constructor].
  destruct (0 <? (if numRetry <? 0 then MaxRetry c else numRetry));
    [|repeat constructor].
  pose proof (exchangeRetry_events env (exchangeRequest c scopes)
                (Z.to_nat (if numRetry <? 0 then MaxRetry c else numRetry))
                0 (t, Some e) (h ++ [EvExchange (exchangeRequest c scopes)]))
    as P.
  destruct (exchangeRetry _ _ _ _ _ _) as [[[t' [e'|]]|] evs];
    cbn [snd fst ret app] in *; rewrite ?app_nil_r; constructor; auto.
Qed.

Lemma oauthToken_no_cache_event (env : Env) (c : Client)
    (scopes : list string) (numRetry : Z) (h : History) :
  Forall (fun e => isCacheEvent e = false)
    (snd (oauthToken env c scopes numRetry h)).
Proof.
  eapply Forall_impl; [|apply oauthToken_events].
  intros [] H; try reflexivity; discriminate H.
Qed.

(** Without a retry budget the exchange is one attempt. *)
Lemma oauthToken_zero_retry (env : Env) (c : Client) (scopes : list string)
    (h : History) :
  snd (oauthToken env c scopes 0 h) = [EvExchange (exchangeRequest c scopes)].
Proof.
  unfold oauthToken, bind, configToken. fold (exchangeRequest c scopes).
  destruct (authority env (exchangeRequest c scopes) h) as [t [e|]]; reflexivity.
Qed.

Lemma no_cache_event_no_write (evs : list event) :
  Forall (fun e => isCacheEvent e = false) evs ->
  filter isCacheWrite evs = [].
Proof.
  induction 1 as [|e l He _ IH]; [reflexivity|].
  destruct e; try discriminate He; exact IH.
Qed.

(** [Token] when its lookup does not answer: the events of the lookup, then
    those of the exchange, then what the result of the exchange decides. *)
Lemma Token_lookup_miss (env : Env) (c : Client) (key : string)
    (scopes : list string) (numRetry : Z) (h : History) :
  cacheMiss c key scopes h ->
  Token env c key scopes numRetry h
  = bind (fun _ => (Some (@None string), lookupEvents c key scopes))
         (fun cached =>
            match cached with
            | Some token => ret (token, None)
            | None =>
                ' (token, err) <- oauthToken env c scopes numRetry ;;
                match err with
                | Some e => ret ("", Some e)
                | None =>
                    tok <- deref token ;;
                    if (AccessToken tok =? "")%string
                    then ret ("", Some (AuthenticationError "Invalid access token"))
                    else
                      (match Cache c with
                       | Some _ =>
                           if (key =? "")%string then ret tt
                           else
                             expiresIn <-
                               (if negb (IsZero (Expiry tok))
                                then now <- timeNow env ;;
                                     ret (wrap64 (Unix (Expiry tok) - Unix now))
                                else ret 0) ;;
                             if 0 <=? expiresIn
                             then cacheWrite (cacheKey c key scopes)
                                    (AccessToken tok) (durMul expiresIn Second)
                             else ret tt
                       | None => ret tt
                       end) ;;;
                      ret (AccessToken tok, None)
                end
            end) h.
Proof.
  unfold cacheMiss, lookupEvents, Token. intros HM.
  unfold bind at 1 3.
  destruct (Cache c) as [ca|]; [|reflexivity].
  destruct (key =? "")%string eqn:EK; [reflexivity|].
  destruct HM as [HM|HM]; [subst key; discriminate EK|].
  unfold cacheRead. rewrite HM. reflexivity.
Qed.

(** C7: when the lookup does not answer and the exchanger reports success
    (a nil error) with an empty access-token string, [Token] returns the empty
    string with an authentication failure, and writes nothing to the cache.
    The exchanger itself returns a first-attempt success as it is, without
    looking at the token string. *)
Theorem Token_empty_access_token (env : Env) (c : Client) (key : string)
    (scopes : list string) (numRetry : Z) (h : History) (tok : Token_t)
    (e1 : list event) :
  cacheMiss c key scopes h ->
  oauthToken env c scopes numRetry (h ++ lookupEvents c key scopes)
  = (Some (Some tok, None), e1) ->
  AccessToken tok = "" ->
  Token env c key scopes numRetry h
  = (Some ("", Some (AuthenticationError "Invalid access token")),
     lookupEvents c key scopes ++ e1)
  /\ filter isCacheWrite (lookupEvents c key scopes ++ e1) = []
  /\ (forall h0 t, authority env (exchangeRequest c scopes) h0 = (Some t, None) ->
        oauthToken env c scopes numRetry h0
        = (Some (Some t, None), [EvExchange (exchangeRequest c scopes)])).
Proof.
  intros HM HO HT. split; [|split].
  - rewrite (Token_lookup_miss env c key scopes numRetry h HM).
    unfold bind at 1. unfold bind at 1. rewrite HO. cbn [deref ret].
    unfold bind. cbn [ret]. rewrite HT. cbn. now rewrite !app_nil_r.
  - pose proof (oauthToken_no_cache_event env c scopes numRetry
                  (h ++ lookupEvents c key scopes)) as P.
    rewrite HO in P. cbn [snd] in P.
    rewrite filter_app.
    assert (L : filter isCacheWrite (lookupEvents c key scopes) = []).
    { unfold lookupEvents. destruct (Cache c); [|reflexivity].
      destruct (key =? "")%string; reflexivity. }
    rewrite L. cbn [app]. now apply no_cache_event_no_write.
  - intros h0 t. apply oauthToken_first_attempt.
Qed.

Lemma Token_empty_access_token_witness :
  Token (grantingEnv emptyToken 1700000000)
    (sampleClient (Some memoryCache)) "svc" [] 3 []
  = (Some ("", Some (AuthenticationError "Invalid access token")),
     [EvCacheRead "sand/resources/svc"; EvExchange (sampleRequest [])]).
Proof.
  apply (Token_empty_access_token (grantingEnv emptyToken 1700000000)
           (sampleClient (Some memoryCache)) "svc" [] 3 [] emptyToken
           [EvExchange (sampleRequest [])]).
  - right. reflexivity.
  - reflexivity.
  - reflexivity.
Defined.

(** [Token] with an empty caller key, by the outcome of the exchange. *)
Lemma Token_empty_key_run (env : Env) (c : Client) (scopes : list string)
    (numRetry : Z) (h : History) :
  Token env c "" scopes numRetry h
  = match oauthToken env c scopes numRetry h with
    | (Some (_, Some e), evs) => (Some ("", Some e), evs)
    | (Some (Some tok, None), evs) =>
        if (AccessToken tok =? "")%string
        then (Some ("", Some (AuthenticationError "Invalid access token")), evs)
        else (Some (AccessToken tok, None), evs)
    | (Some (None, None), evs) => (None, evs)
    | (None, evs) => (None, evs)
    end.
Proof.
  assert (HM : cacheMiss c "" scopes h).
  { unfold cacheMiss. destruct (Cache c); auto. }
  assert (HL : lookupEvents c "" scopes = []).
  { unfold lookupEvents. destruct (Cache c); reflexivity. }
  rewrite (Token_lookup_miss env c "" scopes numRetry h HM), HL.
  unfold bind at 1. rewrite app_nil_r. cbn [app].
  unfold bind at 1.
  destruct (oauthToken env c scopes numRetry h) as [[[t [e|]]|] evs];
    cbn [ret]; rewrite ?app_nil_r.
  - destruct t; reflexivity.
  - destruct t as [tok|]; cbn [deref]; unfold bind; cbn [ret panic];
      rewrite ?app_nil_r; [|reflexivity].
    destruct (AccessToken tok =? "")%string; cbn [ret];
      rewrite ?app_nil_r; [reflexivity|].
    destruct (Cache c); cbn; now rewrite ?app_nil_r.
  - reflexivity.
Qed.

(** C8: with an empty caller key, [Token] adds exactly the events of the
    exchange, none of which is a cache read, write or delete, whether or not
    a cache is configured; and a non-empty token that the exchange returns is
    what [Token] returns. *)
Theorem Token_empty_key_bypasses_cache (env : Env) (c : Client)
    (scopes : list string) (numRetry : Z) (h : History) :
  snd (Token env c "" scopes numRetry h)
  = snd (oauthToken env c scopes numRetry h)
  /\ Forall (fun e => isCacheEvent e = false)
       (snd (Token env c "" scopes numRetry h))
  /\ (forall tok, fst (oauthToken env c scopes numRetry h) = Some (Some tok, None) ->
        AccessToken tok <> "" ->
        fst (Token env c "" scopes numRetry h) = Some (AccessToken tok, None)).
Proof.
  rewrite (Token_empty_key_run env c scopes numRetry h).
  pose proof (oauthToken_no_cache_event env c scopes numRetry h) as P.
  destruct (oauthToken env c scopes numRetry h) as [[[[tok|] [e|]]|] evs];
    cbn [fst snd] in *; try (repeat split; [exact P | discriminate]).
  destruct (AccessToken tok =? "")%string eqn:ET; cbn [fst snd];
    (repeat split; [exact P|]); intros tok' [= <-] N.
  - apply String.eqb_eq in ET. contradiction.
  - reflexivity.
Qed.

Lemma Token_empty_key_bypasses_cache_witness :
  Token (grantingEnv tokenForever 1700000000)
    (sampleClient (Some memoryCache)) "" ["s1"] 0
    [EvCacheWrite "sand/resources/" "stale" 0]
  = (Some ("T", None), [EvExchange (sampleRequest ["s1"])]).
Proof.
  pose proof (Token_empty_key_bypasses_cache
                (grantingEnv tokenForever 1700000000)
                (sampleClient (Some memoryCache)) ["s1"] 0
                [EvCacheWrite "sand/resources/" "stale" 0]) as (E & _ & R).
  specialize (R tokenForever eq_refl).
  destruct (Token _ _ _ _ _ _) as [r evs]. cbn [fst snd] in *.
  rewrite E, R; [reflexivity | discriminate].
Defined.

(** The events of [Token]: a lookup or nothing, then either nothing more (a
    hit) or the events of the exchange and at most one write. *)
Lemma Token_events_split (env : Env) (c : Client) (key : string)
    (scopes : list string) (numRetry : Z) (h : History) :
  exists L W,
    Forall (fun e => isFetchEvent e = true) L
    /\ Forall (fun e => isFetchEvent e = true) W
    /\ (snd (Token env c key scopes numRetry h) = L
        \/ snd (Token env c key scopes numRetry h)
           = L ++ snd (oauthToken env c scopes numRetry (h ++ L)) ++ W).
Proof.
  assert (Tail : forall L,
    Forall (fun e => isFetchEvent e = true) L ->
    exists W, Forall (fun e => isFetchEvent e = true) W /\
      snd (bind (fun _ => (Some (@None string), L))
         (fun cached =>
            match cached with
            | Some token => ret (token, None)
            | None =>
                ' (token, err) <- oauthToken env c scopes numRetry ;;
                match err with
                | Some e => ret ("", Some e)
                | None =>
                    tok <- deref token ;;
                    if (AccessToken tok =? "")%string
                    then ret ("", Some (AuthenticationError "Invalid access token"))
                    else
                      (match Cache c with
                       | Some _ =>
                           if (key =? "")%string then ret tt
                           else
                             expiresIn <-
                               (if negb (IsZero (Expiry tok))
                                then now <- timeNow env ;;
                                     ret (wrap64 (Unix (Expiry tok) - Unix now))
                                else ret 0) ;;
                             if 0 <=? expiresIn
                             then cacheWrite (cacheKey c key scopes)
                                    (AccessToken tok) (durMul expiresIn Second)
                             else ret tt
                       | None => ret tt
                       end) ;;;
                      ret (AccessToken tok, None)
                end
            end) h)
      = L ++ snd (oauthToken env c scopes numRetry (h ++ L)) ++ W).
  { intros L HL. unfold bind at 1. unfold bind at 1.
    destruct (oauthToken env c scopes numRetry (h ++ L)) as [[[t [e|]]|] evs];
      cbn [snd ret].
    - exists []. split; [constructor | rewrite ?app_nil_r; reflexivity].
    - destruct t as [tok|]; cbn [deref]; unfold bind; cbn [ret panic].
      + destruct (AccessToken tok =? "")%string; cbn [ret snd].
        * exists []. split; [constructor | rewrite ?app_nil_r; reflexivity].
        * destruct (Cache c); [destruct (key =? "")%string|]; cbn [ret snd];
            try (exists []; split; [constructor | rewrite ?app_nil_r; reflexivity]).
          destruct (IsZero (Expiry tok)); cbn [negb ret timeNow].
          -- exists [EvCacheWrite (cacheKey c key scopes) (AccessToken tok)
                       (durMul 0 Second)].
             split; [repeat constructor | cbn; rewrite ?app_nil_r; reflexivity].
          -- destruct (0 <=? wrap64 _).
             ++ eexists [EvCacheWrite _ _ _].
                split; [repeat constructor | cbn; rewrite ?app_nil_r; reflexivity].
             ++ exists []. split; [constructor | cbn; rewrite ?app_nil_r; reflexivity].
      + exists []. split; [constructor | rewrite ?app_nil_r; reflexivity].
    - exists []. split; [constructor | rewrite ?app_nil_r; reflexivity]. }
  destruct (Cache c) as [ca|] eqn:HC.
  - destruct (key =? "")%string eqn:HK.
    + destruct (Tail [] (Forall_nil _)) as (W & HW & E).
      exists [], W. repeat split; auto. right.
      rewrite <- E, Token_lookup_miss.
      * unfold lookupEvents. now rewrite HC, HK.
      * unfold cacheMiss. rewrite HC. left. now apply String.eqb_eq.
    + destruct (Read ca h (cacheKey c key scopes)) as [t|] eqn:HR.
      * exists [EvCacheRead (cacheKey c key scopes)], [].
        repeat split; [repeat constructor | constructor|]. left.
        rewrite (Token_hit_run env c ca key scopes numRetry h t); auto.
        now apply String.eqb_neq.
      * destruct (Tail [EvCacheRead (cacheKey c key scopes)]) as (W & HW & E);
          [repeat constructor|].
        exists [EvCacheRead (cacheKey c key scopes)], W.
        repeat split; [repeat constructor | exact HW |]. right.
        rewrite <- E, Token_lookup_miss.
        -- unfold lookupEvents. now rewrite HC, HK.
        -- unfold cacheMiss. rewrite HC. now right.
  - destruct (Tail [] (Forall_nil _)) as (W & HW & E).
    exists [], W. repeat split; auto. right.
    rewrite <- E, Token_lookup_miss.
    + unfold lookupEvents. now rewrite HC.
    + unfold cacheMiss. now rewrite HC.
Qed.

Lemma fetch_is_token_event (e : event) :
  isFetchEvent e = true -> isTokenEvent e = true.
Proof. destruct e; simpl; congruence. Qed.

Lemma exchanger_is_token_event (e : event) :
  isExchangerEvent e = true -> isTokenEvent e = true.
Proof. destruct e; simpl; congruence. Qed.

Lemma Token_events (env : Env) (c : Client) (key : string)
    (scopes : list string) (numRetry : Z) (h : History) :
  Forall (fun e => isTokenEvent e = true)
    (snd (Token env c key scopes numRetry h)).
Proof.
  destruct (Token_events_split env c key scopes numRetry h)
    as (L & W & HL & HW & [E|E]); rewrite E.
  - eapply Forall_impl; [apply fetch_is_token_event | exact HL].
  - rewrite !Forall_app. repeat split.
    + eapply Forall_impl; [apply fetch_is_token_event | exact HL].
    + eapply Forall_impl; [apply exchanger_is_token_event|].
      apply oauthToken_events.
    + eapply Forall_impl; [apply fetch_is_token_event | exact HW].
Qed.

(** Without a retry budget [Token] neither sleeps nor warns. *)
Lemma Token_zero_retry_events (env : Env) (c : Client) (key : string)
    (scopes : list string) (h : History) :
  Forall (fun e => isFetchEvent e = true) (snd (Token env c key scopes 0 h)).
Proof.
  destruct (Token_events_split env c key scopes 0 h)
    as (L & W & HL & HW & [E|E]); rewrite E; [exact HL|].
  rewrite oauthToken_zero_retry, !Forall_app.
  repeat split; auto.
Qed.

Lemma token_events_no_exec (evs : list event) :
  Forall (fun e => isTokenEvent e = true) evs ->
  Forall (fun e => isExec e = false) evs.
Proof.
  apply Forall_impl. intros [] H; try reflexivity; discriminate H.
Qed.

Lemma fetch_events_silent (evs : list event) :
  Forall (fun e => isFetchEvent e = true) evs ->
  sleeps evs = [] /\ evictions evs = [] /\ execCount evs = 0%nat.
Proof.
  induction 1 as [|e l He _ (IH1 & IH2 & IH3)]; [repeat split|].
  unfold execCount in *.
  destruct e; try discriminate He; cbn; auto.
Qed.

(** ** The request orchestrator *)

(** One round of the retry loop on an unauthorized response. *)
Lemma requestRetry_round (env : Env) (c : Client) (key : string)
    (scopes : list string) (exec : Exec) (k : nat) (retry : Z)
    (r : Response) (h : History) :
  StatusCode r = StatusUnauthorized ->
  let pre := retryPrelude c key scopes retry in
  requestRetry env c key scopes exec (S k) retry (Some r) h
  = match Token env c key scopes 0 (h ++ pre) with
    | (Some (_, Some e), e1) => (Some (Some r, Some e), pre ++ e1)
    | (Some (t, None), e1) =>
        match exec (h ++ pre ++ e1) t with
        | (resp', Some e) => (Some (resp', Some e), pre ++ e1 ++ [EvExec t])
        | (resp', None) =>
            let (res, evs) :=
              requestRetry env c key scopes exec k (retry + 1) resp'
                (h ++ pre ++ e1 ++ [EvExec t]) in
            (res, pre ++ e1 ++ EvExec t :: evs)
        end
    | (None, e1) => (None, pre ++ e1)
    end.
Proof.
  intros HS pre. subst pre. unfold retryPrelude.
  cbn [requestRetry deref]. unfold bind at 1. cbn [ret].
  rewrite HS, Z.eqb_refl.
  unfold bind at 1. cbn [emit]. unfold bind at 1. cbn [timeSleep emit].
  unfold bind at 1.
  assert (D : forall h',
    (match Cache c with
     | Some _ => cacheDelete (cacheKey c key scopes)
     | None => ret tt
     end) h'
    = (Some tt, match Cache c with
                | Some _ => [EvCacheDelete (cacheKey c key scopes)]
                | None => []
                end)).
  { intros h'. destruct (Cache c); reflexivity. }
  rewrite D. unfold bind at 1.
  rewrite !app_nil_r, <- !app_assoc. cbn [app].
  destruct (Token env c key scopes 0 _) as [[[t [e|]]|] e1].
  - cbn [ret]. rewrite ?app_nil_r, <- ?app_assoc; reflexivity.
  - unfold bind at 1. unfold callExec at 1.
    rewrite <- !app_assoc. cbn [app].
    destruct (exec _ t) as [resp' [e|]].
    + cbn [ret]. rewrite ?app_nil_r, <- ?app_assoc; reflexivity.
    + destruct (requestRetry env c key scopes exec k (retry + 1) resp' _)
        as [res evs].
      reflexivity.
  - reflexivity.
Qed.

(** The loop stops on a response that is not unauthorized, and when no
    round remains. *)
Lemma requestRetry_stop (env : Env) (c : Client) (key : string)
    (scopes : list string) (exec : Exec) (k : nat) (retry : Z)
    (r : Response) (h : History) :
  StatusCode r <> StatusUnauthorized \/ k = 0%nat ->
  requestRetry env c key scopes exec k retry (Some r) h
  = (Some (Some r, None), []).
Proof.
  intros H. destruct k as [|k]; cbn [requestRetry deref]; unfold bind at 1;
    cbn [ret].
  - destruct (StatusCode r =? StatusUnauthorized); reflexivity.
  - destruct H as [H|H]; [|discriminate H].
    apply Z.eqb_neq in H. rewrite H. reflexivity.
Qed.

Lemma requestRetry_nil_response (env : Env) (c : Client) (key : string)
    (scopes : list string) (exec : Exec) (k : nat) (retry : Z) (h : History) :
  requestRetry env c key scopes exec k retry None h = (None, []).
Proof. destruct k; reflexivity. Qed.

(** [RequestWithCustomRetry], by the outcomes of its first token fetch and
    first call of [exec]. *)
Lemma RequestWithCustomRetry_run (env : Env) (c : Client) (key : string)
    (scopes : list string) (numRetry : Z) (exec : Exec) (h : History) :
  let n := if numRetry <? 0 then MaxRetry c else numRetry in
  RequestWithCustomRetry env c key scopes numRetry exec h
  = match Token env c key scopes n h with
    | (Some (_, Some e), e1) => (Some (None, Some e), e1)
    | (Some (t, None), e1) =>
        match exec (h ++ e1) t with
        | (resp, Some e) => (Some (resp, Some e), e1 ++ [EvExec t])
        | (resp, None) =>
            if 0 <? n
            then
              let (res, evs) :=
                requestRetry env c key scopes exec (Z.to_nat n) 0 resp
                  (h ++ e1 ++ [EvExec t]) in
              (res, e1 ++ EvExec t :: evs)
            else (Some (resp, None), e1 ++ [EvExec t])
        end
    | (None, e1) => (None, e1)
    end.
Proof.
  intros n. unfold RequestWithCustomRetry. fold n. unfold bind at 1.
  destruct (Token env c key scopes n h) as [[[t [e|]]|] e1].
  - cbn [ret]. rewrite ?app_nil_r, <- ?app_assoc; reflexivity.
  - unfold bind at 1. unfold callExec at 1.
    destruct (exec (h ++ e1) t) as [resp [e|]].
    + cbn [ret]. rewrite ?app_nil_r, <- ?app_assoc; reflexivity.
    + destruct (0 <? n).
      * rewrite <- !app_assoc.
        destruct (requestRetry env c key scopes exec (Z.to_nat n) 0 resp _)
          as [res evs].
        reflexivity.
      * cbn [ret]. rewrite ?app_nil_r, <- ?app_assoc; reflexivity.
  - reflexivity.
Qed.

Lemma sleeps_app (a b : list event) : sleeps (a ++ b) = sleeps a ++ sleeps b.
Proof. apply flat_map_app. Qed.

Lemma evictions_app (a b : list event) :
  evictions (a ++ b) = evictions a ++ evictions b.
Proof. apply flat_map_app. Qed.

Lemma execCount_app (a b : list event) :
  execCount (a ++ b) = (execCount a + execCount b)%nat.
Proof. unfold execCount. now rewrite filter_app, length_app. Qed.

(** C4: with [numRetry = 0], a successful token fetch and one unauthorized
    response without a transport error, [RequestWithCustomRetry] returns that
    response with a nil error; after the events of the token fetch the call
    of [exec] is the only event, so there is no second fetch, and the whole
    run has no sleep, no eviction and one call of [exec]. *)
Theorem RequestWithCustomRetry_zero_retry (env : Env) (c : Client)
    (key : string) (scopes : list string) (exec : Exec) (h : History)
    (t : string) (e1 : list event) (r : Response) :
  Token env c key scopes 0 h = (Some (t, None), e1) ->
  exec (h ++ e1) t = (Some r, None) ->
  StatusCode r = StatusUnauthorized ->
  RequestWithCustomRetry env c key scopes 0 exec h
  = (Some (Some r, None), e1 ++ [EvExec t])
  /\ sleeps (e1 ++ [EvExec t]) = []
  /\ evictions (e1 ++ [EvExec t]) = []
  /\ execCount (e1 ++ [EvExec t]) = 1%nat.
Proof.
  intros HT HE _. split.
  - rewrite RequestWithCustomRetry_run. cbn [Z.ltb Z.compare].
    rewrite HT, HE. reflexivity.
  - pose proof (Token_zero_retry_events env c key scopes h) as P.
    rewrite HT in P. cbn [snd] in P.
    destruct (fetch_events_silent e1 P) as (S1 & S2 & S3).
    rewrite sleeps_app, evictions_app, execCount_app, S1, S2, S3.
    repeat split.
Qed.

Lemma RequestWithCustomRetry_zero_retry_witness :
  RequestWithCustomRetry (grantingEnv tokenForever 1700000000)
    (sampleClient (Some memoryCache)) "svc" [] 0 (staleService 1) []
  = (Some (Some unauthorized, None),
     [EvCacheRead "sand/resources/svc"; EvExchange (sampleRequest []);
      EvCacheWrite "sand/resources/svc" "T" 0; EvExec "T"]).
Proof.
  apply (RequestWithCustomRetry_zero_retry
           (grantingEnv tokenForever 1700000000)
           (sampleClient (Some memoryCache)) "svc" [] (staleService 1) [] "T"
           [EvCacheRead "sand/resources/svc"; EvExchange (sampleRequest []);
            EvCacheWrite "sand/resources/svc" "T" 0] unauthorized);
    reflexivity.
Defined.

(** When every attempt at the endpoint grants a non-empty token, [Token]
    succeeds without a sleep. *)
Lemma Token_granted (env : Env) (c : Client) :
  (forall req h', exists tok,
      authority env req h' = (Some tok, None) /\ AccessToken tok <> "") ->
  forall key scopes numRetry h, exists t e1,
    Token env c key scopes numRetry h = (Some (t, None), e1)
    /\ Forall (fun e => isFetchEvent e = true) e1.
Proof.
  intros HA key scopes numRetry h.
  assert (Miss : cacheMiss c key scopes h -> exists t e1,
    Token env c key scopes numRetry h = (Some (t, None), e1)
    /\ Forall (fun e => isFetchEvent e = true) e1).
  { intros HM.
    assert (HL : Forall (fun e => isFetchEvent e = true)
                   (lookupEvents c key scopes)).
    { unfold lookupEvents. destruct (Cache c); [|constructor].
      destruct (key =? "")%string; repeat constructor. }
    rewrite (Token_lookup_miss env c key scopes numRetry h HM).
    unfold bind at 1. unfold bind at 1.
    destruct (HA (exchangeRequest c scopes) (h ++ lookupEvents c key scopes))
      as (tok & Htok & Hne).
    rewrite (oauthToken_first_attempt _ _ _ _ _ _ Htok).
    cbn [deref]. unfold bind at 1. cbn [ret].
    rewrite (nonempty_eqb _ Hne). unfold bind at 1.
    destruct (Cache c) as [ca|]; [destruct (key =? "")%string|].
    - cbn [ret]. do 2 eexists. split; [reflexivity|].
      rewrite !Forall_app. repeat split; auto; repeat constructor.
    - unfold bind at 1.
      destruct (IsZero (Expiry tok)); cbn [negb ret timeNow].
      + cbn. do 2 eexists. split; [reflexivity|].
        rewrite !Forall_app. repeat split; auto; repeat constructor.
      + unfold bind at 1. cbn [ret timeNow].
        destruct (0 <=? wrap64 _); cbn;
          (do 2 eexists; split; [reflexivity|]);
          rewrite !Forall_app; repeat split; auto; repeat constructor.
    - cbn [ret]. do 2 eexists. split; [reflexivity|].
      rewrite !Forall_app. repeat split; auto; repeat constructor. }
  destruct (Cache c) as [ca|] eqn:HC.
  - destruct (key =? "")%string eqn:HK.
    + apply Miss. unfold cacheMiss. rewrite HC. left. now apply String.eqb_eq.
    + destruct (Read ca h (cacheKey c key scopes)) as [t|] eqn:HR.
      * exists t, [EvCacheRead (cacheKey c key scopes)]. split.
        -- apply (Token_hit_run env c ca); auto. now apply String.eqb_neq.
        -- repeat constructor.
      * apply Miss. unfold cacheMiss. rewrite HC. now right.
  - apply Miss. unfold cacheMiss. now rewrite HC.
Qed.

Lemma sleeps_exec (t : string) (l : list event) :
  sleeps (EvExec t :: l) = sleeps l.
Proof. reflexivity. Qed.

Lemma evictions_exec (t : string) (l : list event) :
  evictions (EvExec t :: l) = evictions l.
Proof. reflexivity. Qed.

Lemma execCount_exec (t : string) (l : list event) :
  execCount (EvExec t :: l) = S (execCount l).
Proof. reflexivity. Qed.

Create Rewrite HintDb observe.
#[local] Hint Rewrite sleeps_app evictions_app execCount_app
  sleeps_exec evictions_exec execCount_exec : observe.

Lemma retryPrelude_observed (c : Client) (key : string) (scopes : list string)
    (retry : Z) :
  sleeps (retryPrelude c key scopes retry)
  = [durMul (pow2Duration retry) Second]
  /\ evictions (retryPrelude c key scopes retry)
     = match Cache c with
       | Some _ => [cacheKey c key scopes]
       | None => []
       end
  /\ execCount (retryPrelude c key scopes retry) = 0%nat.
Proof. unfold retryPrelude. destruct (Cache c); repeat split. Qed.



(** *** The exchange under failure *)

(** One round of the retry loop of [oauthToken] after a failed attempt. *)
Lemma exchangeRetry_round (env : Env) (req : ExchangeRequest) (k : nat)
    (retry : Z) (t : option Token_t) (e : error) (h : History) :
  let pre := [EvWarn (pow2Duration retry) (Error e);
              EvSleep (durMul (pow2Duration retry) Second)] in
  exchangeRetry env req (S k) retry (t, Some e) h
  = let (res, evs) :=
      exchangeRetry env req k (retry + 1) (authority env req (h ++ pre))
        (h ++ pre ++ [EvExchange req]) in
    (res, pre ++ EvExchange req :: evs).
Proof.
  cbn [exchangeRetry snd]. unfold bind, emit, timeSleep, configToken.
  cbn [emit]. rewrite <- !app_assoc. cbn [app].
  destruct (exchangeRetry env req k _ _ _) as [res evs]. reflexivity.
Qed.

(** C2: with [numRetry = 3] and an endpoint that fails every attempt,
    [oauthToken] makes 4 attempts with a sleep of 1, 2 and 4 seconds before
    the second, third and fourth, and returns an authentication failure that
    carries the message of the error of the fourth attempt. *)
Theorem oauthToken_exhausts_three_retries (env : Env) (c : Client)
    (scopes : list string) (h : History) :
  (forall h', snd (authority env (exchangeRequest c scopes) h') <> None) ->
  let req := exchangeRequest c scopes in
  exists e1 e2 e3 e4 t4,
    let attempts :=
      [EvExchange req; EvWarn 1 (Error e1); EvSleep (1 * Second);
       EvExchange req; EvWarn 2 (Error e2); EvSleep (2 * Second);
       EvExchange req; EvWarn 4 (Error e3); EvSleep (4 * Second)] in
    authority env req (h ++ attempts) = (t4, Some e4)
    /\ oauthToken env c scopes 3 h
       = (Some (t4, Some (AuthenticationError (Error e4))),
          attempts ++ [EvExchange req])
    /\ sleeps (snd (oauthToken env c scopes 3 h))
       = [1 * Second; 2 * Second; 4 * Second]
    /\ exchangeCount (snd (oauthToken env c scopes 3 h)) = 4%nat.
Proof.
  intros HF req.
  assert (F : forall h', exists t e, authority env req h' = (t, Some e)).
  { intros h'. specialize (HF h').
    destruct (authority env req h') as [t [e|]] eqn:E; [eauto|].
    unfold req in E. rewrite E in HF. now elim HF. }
  destruct (F h) as (t1 & e1 & A1).
  destruct (F (h ++ [EvExchange req; EvWarn 1 (Error e1); EvSleep (1 * Second)]))
    as (t2 & e2 & A2).
  destruct (F (h ++ [EvExchange req; EvWarn 1 (Error e1); EvSleep (1 * Second);
                     EvExchange req; EvWarn 2 (Error e2); EvSleep (2 * Second)]))
    as (t3 & e3 & A3).
  destruct (F (h ++ [EvExchange req; EvWarn 1 (Error e1); EvSleep (1 * Second);
                     EvExchange req; EvWarn 2 (Error e2); EvSleep (2 * Second);
                     EvExchange req; EvWarn 4 (Error e3); EvSleep (4 * Second)]))
    as (t4 & e4 & A4).
  exists e1, e2, e3, e4, t4. cbv zeta.
  assert (R : oauthToken env c scopes 3 h
              = (Some (t4, Some (AuthenticationError (Error e4))),
                 [EvExchange req; EvWarn 1 (Error e1); EvSleep (1 * Second);
                  EvExchange req; EvWarn 2 (Error e2); EvSleep (2 * Second);
                  EvExchange req; EvWarn 4 (Error e3); EvSleep (4 * Second)]
                 ++ [EvExchange req])).
  { unfold oauthToken. fold (exchangeRequest c scopes). fold req.
    cbn [Z.ltb Z.compare]. unfold bind at 1. unfold configToken at 1.
    rewrite A1. cbn [snd]. unfold bind at 1.
    change (Z.to_nat 3) with 3%nat.
    rewrite exchangeRetry_round. rewrite <- !app_assoc. cbn [app].
    change (pow2Duration 0) with 1.
    change (durMul 1 Second) with (1 * Second).
    rewrite A2, exchangeRetry_round. rewrite <- !app_assoc. cbn [app].
    change (pow2Duration (0 + 1)) with 2.
    change (durMul 2 Second) with (2 * Second).
    rewrite A3, exchangeRetry_round. rewrite <- !app_assoc. cbn [app].
    change (pow2Duration (0 + 1 + 1)) with 4.
    change (durMul 4 Second) with (4 * Second).
    rewrite A4. reflexivity. }
  split; [exact A4|]. split; [exact R|]. rewrite R. split; reflexivity.
Qed.

Lemma oauthToken_exhausts_three_retries_witness :
  exists e1 e2 e3 e4 t4,
    let req := exchangeRequest (sampleClient None) ["s1"] in
    let attempts :=
      [EvExchange req; EvWarn 1 (Error e1); EvSleep (1 * Second);
       EvExchange req; EvWarn 2 (Error e2); EvSleep (2 * Second);
       EvExchange req; EvWarn 4 (Error e3); EvSleep (4 * Second)] in
    authority refusingEnv req ([] ++ attempts) = (t4, Some e4)
    /\ oauthToken refusingEnv (sampleClient None) ["s1"] 3 []
       = (Some (t4, Some (AuthenticationError (Error e4))),
          attempts ++ [EvExchange req])
    /\ sleeps (snd (oauthToken refusingEnv (sampleClient None) ["s1"] 3 []))
       = [1 * Second; 2 * Second; 4 * Second]
    /\ exchangeCount (snd (oauthToken refusingEnv (sampleClient None) ["s1"] 3 []))
       = 4%nat.
Proof.
  apply (oauthToken_exhausts_three_retries refusingEnv (sampleClient None)
           ["s1"] []).
  intros h'. simpl. discriminate.
Defined.

(** *** Transport errors of the callback *)

Lemma execErrorIsFinal_nil (exec : Exec) (h : History)
    (res : option (option Response * option error)) :
  execErrorIsFinal exec h [] res.
Proof. intros [|i] tok e H; discriminate H. Qed.

Lemma execErrorIsFinal_prefix (exec : Exec) (h : History)
    (p evs : list event) (res : option (option Response * option error)) :
  Forall (fun e => isExec e = false) p ->
  execErrorIsFinal exec (h ++ p) evs res ->
  execErrorIsFinal exec h (p ++ evs) res.
Proof.
  intros HP. revert h. induction HP as [|x p Hx _ IH]; intros h Q.
  - now rewrite app_nil_r in Q.
  - intros [|i] tok e Hn He; cbn in Hn.
    + injection Hn as ->. discriminate Hx.
    + cbn [firstn app] in *.
      assert (Q' : execErrorIsFinal exec ((h ++ [x]) ++ p) evs res)
        by now rewrite <- app_assoc.
      specialize (IH (h ++ [x]) Q' i tok e Hn).
      rewrite <- app_assoc in IH. cbn [app] in IH.
      destruct (IH He) as [E1 E2]. split; [|exact E2].
      cbn [app]. now f_equal.
Qed.

Lemma execErrorIsFinal_exec_ok (exec : Exec) (h : History) (t : string)
    (evs : list event) (res : option (option Response * option error)) :
  snd (exec h t) = None ->
  execErrorIsFinal exec (h ++ [EvExec t]) evs res ->
  execErrorIsFinal exec h (EvExec t :: evs) res.
Proof.
  intros HN Q [|i] tok e Hn He; cbn in Hn.
  - injection Hn as <-. cbn [firstn] in He. rewrite app_nil_r in He. congruence.
  - cbn [firstn] in *.
    specialize (Q i tok e Hn). rewrite <- app_assoc in Q. cbn [app] in Q.
    destruct (Q He) as [E1 E2]. split; [|exact E2].
    cbn [app]. now f_equal.
Qed.

Lemma execErrorIsFinal_exec_last (exec : Exec) (h : History) (t : string) :
  execErrorIsFinal exec h [EvExec t] (Some (exec h t)).
Proof.
  intros [|[|i]] tok e Hn He; try discriminate Hn.
  injection Hn as <-. cbn [firstn]. rewrite app_nil_r. now split.
Qed.

Lemma Token_no_exec (env : Env) (c : Client) (key : string)
    (scopes : list string) (numRetry : Z) (h : History) :
  Forall (fun e => isExec e = false) (snd (Token env c key scopes numRetry h)).
Proof. apply token_events_no_exec, Token_events. Qed.

Lemma retryPrelude_no_exec (c : Client) (key : string) (scopes : list string)
    (retry : Z) :
  Forall (fun e => isExec e = false) (retryPrelude c key scopes retry).
Proof. unfold retryPrelude. destruct (Cache c); repeat constructor. Qed.

Lemma requestRetry_exec_error_final (env : Env) (c : Client) (key : string)
    (scopes : list string) (exec : Exec) (k : nat) :
  forall retry resp h,
    execErrorIsFinal exec h
      (snd (requestRetry env c key scopes exec k retry resp h))
      (fst (requestRetry env c key scopes exec k retry resp h)).
Proof.
  induction k as [|k IH]; intros retry [r|] h;
    try (rewrite requestRetry_nil_response; apply execErrorIsFinal_nil).
  - rewrite requestRetry_stop by (now right). apply execErrorIsFinal_nil.
  - destruct (Z.eq_dec (StatusCode r) StatusUnauthorized) as [HS|HS];
      [|rewrite requestRetry_stop by (now left); apply execErrorIsFinal_nil].
    rewrite (requestRetry_round env c key scopes exec k retry r h HS).
    cbv zeta.
    pose proof (retryPrelude_no_exec c key scopes retry) as NP.
    set (pre := retryPrelude c key scopes retry) in *.
    pose proof (Token_no_exec env c key scopes 0 (h ++ pre)) as NT.
    destruct (Token env c key scopes 0 (h ++ pre)) as [[[t [e|]]|] e1];
      cbn [fst snd] in *.
    + intros i tok e' Hn. exfalso.
      apply nth_error_In in Hn.
      assert (F : Forall (fun e => isExec e = false) (pre ++ e1))
        by (apply Forall_app; now split).
      rewrite Forall_forall in F. specialize (F _ Hn). discriminate F.
    + specialize (IH (retry + 1) (fst (exec (h ++ pre ++ e1) t))
                    (h ++ pre ++ e1 ++ [EvExec t])).
      destruct (exec (h ++ pre ++ e1) t) as [resp' [e|]] eqn:EX; cbn [fst] in IH.
      * cbn [fst snd].
        apply execErrorIsFinal_prefix; [exact NP|].
        apply execErrorIsFinal_prefix; [exact NT|].
        rewrite <- app_assoc, <- EX. apply execErrorIsFinal_exec_last.
      * destruct (requestRetry env c key scopes exec k (retry + 1) resp' _)
          as [res evs]. cbn [fst snd] in *.
        apply execErrorIsFinal_prefix; [exact NP|].
        apply execErrorIsFinal_prefix; [exact NT|].
        apply execErrorIsFinal_exec_ok.
        -- rewrite <- app_assoc, EX. reflexivity.
        -- now rewrite <- !app_assoc.
    + intros i tok e' Hn. exfalso.
      apply nth_error_In in Hn.
      assert (F : Forall (fun e => isExec e = false) (pre ++ e1))
        by (apply Forall_app; now split).
      rewrite Forall_forall in F. specialize (F _ Hn). discriminate F.
Qed.

(** C3: in a run of [RequestWithCustomRetry], a call of [exec] that returns
    a non-nil error, be it the first call or one of a retry, is the last
    event of the run: no sleep, eviction, token fetch or call follows it; and
    the run returns what that call returned, error included. *)
Theorem RequestWithCustomRetry_exec_error_is_final (env : Env) (c : Client)
    (key : string) (scopes : list string) (numRetry : Z) (exec : Exec)
    (h : History) (i : nat) (tok : string) (e : error) :
  let run := RequestWithCustomRetry env c key scopes numRetry exec h in
  nth_error (snd run) i = Some (EvExec tok) ->
  snd (exec (h ++ firstn i (snd run)) tok) = Some e ->
  snd run = firstn i (snd run) ++ [EvExec tok]
  /\ fst run = Some (exec (h ++ firstn i (snd run)) tok).
Proof.
  intros run. revert i tok e.
  change (execErrorIsFinal exec h (snd run) (fst run)).
  subst run. rewrite RequestWithCustomRetry_run. cbv zeta.
  set (n := if numRetry <? 0 then MaxRetry c else numRetry).
  pose proof (Token_no_exec env c key scopes n h) as NT.
  destruct (Token env c key scopes n h) as [[[t [e|]]|] e1]; cbn [fst snd] in *.
  - rewrite <- (app_nil_r e1).
    apply execErrorIsFinal_prefix; [exact NT | apply execErrorIsFinal_nil].
  - pose proof (requestRetry_exec_error_final env c key scopes exec (Z.to_nat n)
                  0 (fst (exec (h ++ e1) t)) (h ++ e1 ++ [EvExec t])) as L.
    destruct (exec (h ++ e1) t) as [resp [e|]] eqn:EX; cbn [fst snd] in *.
    + apply execErrorIsFinal_prefix; [exact NT|].
      rewrite <- EX. apply execErrorIsFinal_exec_last.
    + destruct (0 <? n).
      * destruct (requestRetry env c key scopes exec (Z.to_nat n) 0 resp _)
          as [res evs]. cbn [fst snd] in *.
        apply execErrorIsFinal_prefix; [exact NT|].
        apply execErrorIsFinal_exec_ok; [now rewrite EX|].
        now rewrite <- app_assoc.
      * cbn [fst snd].
        apply execErrorIsFinal_prefix; [exact NT|].
        apply execErrorIsFinal_exec_ok; [now rewrite EX|].
        apply execErrorIsFinal_nil.
  - rewrite <- (app_nil_r e1).
    apply execErrorIsFinal_prefix; [exact NT | apply execErrorIsFinal_nil].
Qed.

Lemma RequestWithCustomRetry_exec_error_is_final_witness :
  let run := RequestWithCustomRetry (grantingEnv tokenForever 1700000000)
               (sampleClient (Some memoryCache)) "svc" ["s1"; "s2"] 2
               brokenService [] in
  snd run = firstn 10 (snd run) ++ [EvExec "T"]
  /\ fst run = Some (None, Some (OtherError "connection reset")).
Proof.
  apply (RequestWithCustomRetry_exec_error_is_final
           (grantingEnv tokenForever 1700000000)
           (sampleClient (Some memoryCache)) "svc" ["s1"; "s2"] 2
           brokenService [] 10%nat "T" (OtherError "connection reset"));
    reflexivity.
Defined.

(** The failure that is surfaced carries the message of the last attempt,
    here the fourth. *)
Example oauthToken_wraps_last_error :
  fst (oauthToken refusingEnv (sampleClient None) [] 3 [])
  = Some (None, Some (AuthenticationError "refused (4)")).
Proof. reflexivity. Qed.

(** A negative [numRetry] stands for [MaxRetry]: five retries, the sleeps
    doubling from one second. *)
Example oauthToken_default_budget :
  sleeps (snd (oauthToken refusingEnv (sampleClient None) [] (-1) []))
  = [1 * Second; 2 * Second; 4 * Second; 8 * Second; 16 * Second].
Proof. reflexivity. Qed.

(** * Further properties *)

(** ** Cache keys of different calls *)

Lemma noSlash_sep (a r : string) : noSlash (a ++ "/" ++ r) = false.
Proof.
  induction a as [|ch a IH]; [reflexivity|].
  change (negb (Ascii.eqb ch "/") && noSlash (a ++ "/" ++ r) = false).
  rewrite IH. apply andb_false_r.
Qed.

Lemma slash_split (a b r1 r2 : string) :
  noSlash a = true -> noSlash b = true ->
  (a ++ "/" ++ r1)%string = (b ++ "/" ++ r2)%string -> a = b /\ r1 = r2.
Proof.
  revert b. induction a as [|ch a IH]; intros [|ch' b] Ha Hb H; simpl in *.
  - injection H as H. now split.
  - injection H as Hc _. subst ch'. discriminate Hb.
  - injection H as Hc _. subst ch. discriminate Ha.
  - injection H as Hc H. subst ch'.
    apply andb_true_iff in Ha as [_ Ha]. apply andb_true_iff in Hb as [_ Hb].
    destruct (IH b Ha Hb H) as [-> ->]. now split.
Qed.

Lemma cacheKey_nil_parts (c : Client) (key : string) :
  cacheKey c key []
  = (CacheRoot c ++ "/" ++ cacheType c ++ "/" ++ key ++ "")%string.
Proof. rewrite cacheKey_nil. now rewrite append_empty_r. Qed.

Lemma cacheKey_cons_parts (c : Client) (key s : string) (scopes : list string) :
  cacheKey c key (s :: scopes)
  = (CacheRoot c ++ "/" ++ cacheType c ++ "/" ++ key ++ "/"
       ++ Join (s :: scopes) "_")%string.
Proof.
  rewrite cacheKey_cons.
  rewrite (append_assoc (CacheRoot c)).
  change ("/" ++ cacheType c ++ "/" ++ key)%string
    with (String "/" (cacheType c ++ "/" ++ key))%string.
  cbn [append]. rewrite (append_assoc (cacheType c)).
  cbn [append]. reflexivity.
Qed.

(** X1. Two calls on one client share a cache key only when they have the
    same caller key and the same scopes, provided the caller keys contain no
    ["/"] and the scopes no ["_"]. *)
Theorem cacheKey_injective (c : Client) (k1 k2 : string)
    (s1 s2 : list string) :
  noSlash k1 = true -> noSlash k2 = true ->
  Forall (fun s => noUnderscore s = true) s1 ->
  Forall (fun s => noUnderscore s = true) s2 ->
  cacheKey c k1 s1 = cacheKey c k2 s2 ->
  k1 = k2 /\ s1 = s2.
Proof.
  intros N1 N2 U1 U2 HK.
  assert (Cut : forall t1 t2 : string,
             (CacheRoot c ++ "/" ++ cacheType c ++ "/" ++ k1 ++ t1)%string
             = (CacheRoot c ++ "/" ++ cacheType c ++ "/" ++ k2 ++ t2)%string ->
             (k1 ++ t1)%string = (k2 ++ t2)%string).
  { intros t1 t2 H. apply append_inv_head in H. cbn [append] in H.
    injection H as H. apply append_inv_head in H. cbn [append] in H.
    now injection H as H. }
  destruct s1 as [|x s1], s2 as [|y s2].
  - rewrite !cacheKey_nil_parts in HK. apply Cut in HK.
    rewrite !append_empty_r in HK. now split.
  - rewrite cacheKey_nil_parts, cacheKey_cons_parts in HK. apply Cut in HK.
    rewrite append_empty_r in HK. subst k1.
    rewrite noSlash_sep in N1. discriminate.
  - rewrite cacheKey_nil_parts, cacheKey_cons_parts in HK. apply Cut in HK.
    rewrite append_empty_r in HK. subst k2.
    rewrite noSlash_sep in N2. discriminate.
  - rewrite !cacheKey_cons_parts in HK. apply Cut in HK.
    destruct (slash_split _ _ _ _ N1 N2 HK) as [-> HJ]. split; [reflexivity|].
    apply Join_underscore_inj; auto; discriminate.
Qed.

Lemma cacheKey_injective_witness :
  "svc" = "svc" /\ ["read"; "write"] = ["read"; "write"].
Proof.
  apply (cacheKey_injective (sampleClient None) "svc" "svc"
           ["read"; "write"] ["read"; "write"]);
    try reflexivity; repeat constructor.
Defined.

(** A caller key with a ["/"] can take the key of another call: the
    hypothesis on caller keys is needed. *)
Example cacheKey_slash_collision :
  cacheKey (sampleClient None) "a/b" [] = cacheKey (sampleClient None) "a" ["b"].
Proof. reflexivity. Qed.

(** ** The backoff schedule *)

(** X2. The sleep before retry [retry] is [2^retry] seconds for every index
    up to 33, and doubles from one index to the next; at index 34 the product
    with [time.Second] no longer fits 64 bits and the duration is negative. *)
Theorem backoff_exact_up_to_33 (retry : Z) :
  0 <= retry <= 33 ->
  durMul (pow2Duration retry) Second = 2 ^ retry * Second
  /\ 0 < durMul (pow2Duration retry) Second
  /\ (retry < 33 ->
      durMul (pow2Duration (retry + 1)) Second
      = 2 * durMul (pow2Duration retry) Second)
  /\ durMul (pow2Duration 34) Second < 0.
Proof.
  intros H.
  assert (E : forall r, 0 <= r <= 33 ->
                durMul (pow2Duration r) Second = 2 ^ r * Second).
  { intros r Hr. unfold durMul, pow2Duration.
    destruct (r <? 63) eqn:L; [|apply Z.ltb_ge in L; lia].
    apply wrap64_small. unfold Second.
    assert (0 < 2 ^ r) by (apply Z.pow_pos_nonneg; lia).
    assert (2 ^ r <= 2 ^ 33) by (apply Z.pow_le_mono_r; lia).
    change (2 ^ 33) with 8589934592 in *. lia. }
  split; [|split; [|split]].
  - now apply E.
  - rewrite E by lia. unfold Second.
    assert (0 < 2 ^ retry) by (apply Z.pow_pos_nonneg; lia). lia.
  - intros L. rewrite !E by lia. rewrite Z.pow_add_r by lia.
    change (2 ^ 1) with 2. ring.
  - reflexivity.
Qed.

Lemma backoff_exact_up_to_33_witness :
  durMul (pow2Duration 5) Second = 2 ^ 5 * Second.
Proof.
  refine (proj1 (backoff_exact_up_to_33 5 _)). split; discriminate.
Defined.

(** ** The exchanger in general *)

Lemma exchangeRetry_done (env : Env) (req : ExchangeRequest) (k : nat)
    (retry : Z) (r : option Token_t * option error) (h : History) :
  snd r = None \/ k = 0%nat ->
  exchangeRetry env req k retry r h = (Some r, []).
Proof.
  intros [H| ->].
  - destruct r as [t e]. cbn [snd] in H. subst e. destruct k; reflexivity.
  - destruct r as [t [e|]]; reflexivity.
Qed.

Lemma observed_round (w : Z) (m : string) (d : Z) (req : ExchangeRequest)
    (evs : list event) :
  sleeps (EvWarn w m :: EvSleep d :: EvExchange req :: evs) = d :: sleeps evs
  /\ exchangeCount (EvWarn w m :: EvSleep d :: EvExchange req :: evs)
     = S (exchangeCount evs).
Proof. split; reflexivity. Qed.

Lemma observed_exchange (req : ExchangeRequest) (evs : list event) :
  sleeps (EvExchange req :: evs) = sleeps evs
  /\ exchangeCount (EvExchange req :: evs) = S (exchangeCount evs).
Proof. split; reflexivity. Qed.

(** The retry loop of [oauthToken]: [j] rounds, each a sleep and an attempt;
    it ends before the budget [k] only on success. *)
Lemma exchangeRetry_rounds (env : Env) (req : ExchangeRequest) (k : nat) :
  forall retry r h, exists j r' evs,
    exchangeRetry env req k retry r h = (Some r', evs)
    /\ (j <= k)%nat
    /\ sleeps evs = backoffs retry j
    /\ exchangeCount evs = j
    /\ (snd r' <> None -> j = k)
    /\ (snd r = None -> r' = r).
Proof.
  induction k as [|k IH]; intros retry r h.
  - exists 0%nat, r, []. rewrite exchangeRetry_done by (now right).
    repeat split; auto.
  - destruct r as [t [e|]].
    + rewrite exchangeRetry_round. cbv zeta.
      destruct (IH (retry + 1)
                  (authority env req
                     (h ++ [EvWarn (pow2Duration retry) (Error e);
                            EvSleep (durMul (pow2Duration retry) Second)]))
                  (h ++ [EvWarn (pow2Duration retry) (Error e);
                         EvSleep (durMul (pow2Duration retry) Second)]
                     ++ [EvExchange req]))
        as (j & r' & evs & E & Hj & HS & HX & HF & _).
      rewrite E. exists (S j), r'.
      exists (EvWarn (pow2Duration retry) (Error e)
                :: EvSleep (durMul (pow2Duration retry) Second)
                :: EvExchange req :: evs).
      split; [reflexivity|].
      destruct (observed_round (pow2Duration retry) (Error e)
                             (durMul (pow2Duration retry) Second) req evs)
        as [O1 O2].
      rewrite O1, O2, HS, HX.
      split; [lia|]. split; [reflexivity|]. split; [reflexivity|].
      split; [intros N; now rewrite (HF N) | discriminate].
    + exists 0%nat, (t, None), []. rewrite exchangeRetry_done by (now left).
      repeat split; auto; try lia. intros N. now elim N.
Qed.

(** [oauthToken], by its first attempt. *)
Lemma oauthToken_run (env : Env) (c : Client) (scopes : list string)
    (numRetry : Z) (h : History) :
  let req := exchangeRequest c scopes in
  let n := retryBudget c numRetry in
  oauthToken env c scopes numRetry h
  = match authority env req h with
    | (t, Some e) =>
        if 0 <? n
        then
          match exchangeRetry env req (Z.to_nat n) 0 (t, Some e)
                  (h ++ [EvExchange req]) with
          | (Some (t', Some e'), evs) =>
              (Some (t', Some (AuthenticationError (Error e'))),
               EvExchange req :: evs)
          | (Some (t', None), evs) => (Some (t', None), EvExchange req :: evs)
          | (None, evs) => (None, EvExchange req :: evs)
          end
        else (Some (t, Some (AuthenticationError (Error e))), [EvExchange req])
    | (t, None) => (Some (t, None), [EvExchange req])
    end.
Proof.
  intros req n. unfold oauthToken. fold (exchangeRequest c scopes).
  fold (retryBudget c numRetry). fold req. fold n.
  unfold bind at 1. unfold configToken at 1.
  destruct (authority env req h) as [t [e|]]; cbn [snd fst].
  - destruct (0 <? n).
    + unfold bind at 1.
      destruct (exchangeRetry env req (Z.to_nat n) 0 (t, Some e) _)
        as [[[t' [e'|]]|] evs]; cbn [snd fst ret app];
        rewrite ?app_nil_r; reflexivity.
    + reflexivity.
  - reflexivity.
Qed.

(** X3. For every budget, [oauthToken] makes one attempt more than it
    sleeps, its sleeps are the backoff schedule from index 0 without a gap,
    their number is at most the budget, it stops short of the budget only on
    success, and the only error it returns is an authentication failure. *)
Theorem oauthToken_attempts_and_sleeps (env : Env) (c : Client)
    (scopes : list string) (numRetry : Z) (h : History) :
  exists j t err,
    fst (oauthToken env c scopes numRetry h) = Some (t, err)
    /\ (j <= Z.to_nat (retryBudget c numRetry))%nat
    /\ sleeps (snd (oauthToken env c scopes numRetry h)) = backoffs 0 j
    /\ exchangeCount (snd (oauthToken env c scopes numRetry h)) = S j
    /\ (forall e, err = Some e ->
          j = Z.to_nat (retryBudget c numRetry)
          /\ exists m, e = AuthenticationError m).
Proof.
  rewrite oauthToken_run. cbv zeta.
  set (req := exchangeRequest c scopes). set (n := retryBudget c numRetry).
  destruct (authority env req h) as [t [e|]].
  - destruct (0 <? n) eqn:L.
    + destruct (exchangeRetry_rounds env req (Z.to_nat n) 0 (t, Some e)
                  (h ++ [EvExchange req]))
        as (j & [t' err'] & evs & E & Hj & HS & HX & HF & _).
      rewrite E. cbn [snd] in HF.
      destruct (observed_exchange req evs) as [O1 O2].
      destruct err' as [e'|]; cbn [fst snd]; rewrite O1, O2, HS, HX.
      * exists j, t', (Some (AuthenticationError (Error e'))).
        split; [reflexivity|]. split; [exact Hj|].
        split; [reflexivity|]. split; [reflexivity|].
        intros e0 [= <-]. split; [apply HF; discriminate | eauto].
      * exists j, t', None.
        split; [reflexivity|]. split; [exact Hj|].
        split; [reflexivity|]. split; [reflexivity|]. discriminate.
    + apply Z.ltb_ge in L.
      exists 0%nat, t, (Some (AuthenticationError (Error e))).
      cbn [fst snd].
      split; [reflexivity|]. split; [lia|].
      split; [reflexivity|]. split; [reflexivity|].
      intros e0 [= <-]. split; [|eauto].
      destruct n; try reflexivity; lia.
  - exists 0%nat, t, None. cbn [fst snd].
    split; [reflexivity|]. split; [lia|].
    split; [reflexivity|]. split; [reflexivity|]. discriminate.
Qed.

Lemma oauthToken_attempts_and_sleeps_witness :
  exists j t err,
    fst (oauthToken refusingEnv (sampleClient None) ["s1"] (-1) []) = Some (t, err)
    /\ (j <= Z.to_nat (retryBudget (sampleClient None) (-1)))%nat
    /\ sleeps (snd (oauthToken refusingEnv (sampleClient None) ["s1"] (-1) []))
       = backoffs 0 j
    /\ exchangeCount (snd (oauthToken refusingEnv (sampleClient None) ["s1"] (-1) []))
       = S j
    /\ (forall e, err = Some e ->
          j = Z.to_nat (retryBudget (sampleClient None) (-1))
          /\ exists m, e = AuthenticationError m).
Proof.
  exact (oauthToken_attempts_and_sleeps refusingEnv (sampleClient None)
           ["s1"] (-1) []).
Defined.

(** The loop when every attempt fails: it uses the whole budget, and what
    it returns is the answer of its last attempt. *)
Lemma exchangeRetry_all_fail (env : Env) (req : ExchangeRequest) :
  (forall h', snd (authority env req h') <> None) ->
  forall k retry t e h, exists t' e' evs,
    exchangeRetry env req k retry (t, Some e) h = (Some (t', Some e'), evs)
    /\ sleeps evs = backoffs retry k
    /\ exchangeCount evs = k
    /\ ((evs = [] /\ t' = t /\ e' = e)
        \/ exists p, evs = p ++ [EvExchange req]
                     /\ authority env req (h ++ p) = (t', Some e')).
Proof.
  intros HF. induction k as [|k IH]; intros retry t e h.
  - exists t, e, []. rewrite exchangeRetry_done by (now right).
    repeat split. now left.
  - rewrite exchangeRetry_round. cbv zeta.
    set (pre := [EvWarn (pow2Duration retry) (Error e);
                 EvSleep (durMul (pow2Duration retry) Second)]).
    destruct (authority env req (h ++ pre)) as [t1 [e1|]] eqn:A;
      [|specialize (HF (h ++ pre)); rewrite A in HF; now elim HF].
    destruct (IH (retry + 1) t1 e1 (h ++ pre ++ [EvExchange req]))
      as (t' & e' & evs & E & HS & HX & HL).
    rewrite E. exists t', e', (pre ++ EvExchange req :: evs).
    split; [reflexivity|].
    destruct (observed_round (pow2Duration retry) (Error e)
                (durMul (pow2Duration retry) Second) req evs) as [O1 O2].
    subst pre. cbn [app]. rewrite O1, O2, HS, HX.
    split; [reflexivity|]. split; [reflexivity|]. right.
    destruct HL as [(-> & -> & ->) | (p & -> & HA)].
    + exists [EvWarn (pow2Duration retry) (Error e);
              EvSleep (durMul (pow2Duration retry) Second)].
      split; [reflexivity | exact A].
    + exists (EvWarn (pow2Duration retry) (Error e)
                :: EvSleep (durMul (pow2Duration retry) Second)
                :: EvExchange req :: p).
      split; [reflexivity|].
      rewrite <- HA. f_equal. rewrite <- !app_assoc. reflexivity.
Qed.

(** X4. When every attempt at the endpoint fails, [oauthToken] uses its whole
    budget [n] (none when the budget is not positive): [n + 1] attempts, the
    sleeps of the indices [0 .. n-1], and an authentication failure with the
    message of the error of the last attempt, the token being the one of
    that attempt. *)
Theorem oauthToken_exhausts_budget (env : Env) (c : Client)
    (scopes : list string) (numRetry : Z) (h : History) :
  (forall h', snd (authority env (exchangeRequest c scopes) h') <> None) ->
  let n := Z.to_nat (retryBudget c numRetry) in
  exists t e p,
    oauthToken env c scopes numRetry h
    = (Some (t, Some (AuthenticationError (Error e))),
       p ++ [EvExchange (exchangeRequest c scopes)])
    /\ authority env (exchangeRequest c scopes) (h ++ p) = (t, Some e)
    /\ sleeps (p ++ [EvExchange (exchangeRequest c scopes)]) = backoffs 0 n
    /\ exchangeCount (p ++ [EvExchange (exchangeRequest c scopes)]) = S n.
Proof.
  intros HF n. rewrite oauthToken_run. cbv zeta.
  set (req := exchangeRequest c scopes) in *.
  destruct (authority env req h) as [t [e|]] eqn:A;
    [|specialize (HF h); rewrite A in HF; now elim HF].
  destruct (0 <? retryBudget c numRetry) eqn:L.
  - destruct (exchangeRetry_all_fail env req HF n 0 t e (h ++ [EvExchange req]))
      as (t' & e' & evs & E & HS & HX & HL).
    fold n. rewrite E.
    destruct (observed_exchange req evs) as [O1 O2].
    destruct HL as [(-> & -> & ->) | (p & -> & HA)].
    + exists t, e, []. cbn [app].
      split; [reflexivity|]. rewrite app_nil_r. split; [exact A|].
      rewrite O1, O2, HS, HX. now split.
    + exists t', e', (EvExchange req :: p). cbn [app].
      split; [reflexivity|]. split.
      * rewrite <- HA. f_equal. rewrite <- app_assoc. reflexivity.
      * rewrite O1, O2, HS, HX. now split.
  - exists t, e, []. cbn [app]. split; [reflexivity|].
    rewrite app_nil_r. split; [exact A|].
    apply Z.ltb_ge in L.
    assert (n = 0%nat) as -> by (subst n; destruct (retryBudget c numRetry); try reflexivity; lia).
    now split.
Qed.

Lemma oauthToken_exhausts_budget_witness :
  exists t e p,
    oauthToken refusingEnv (sampleClient None) ["s1"] (-1) []
    = (Some (t, Some (AuthenticationError (Error e))),
       p ++ [EvExchange (exchangeRequest (sampleClient None) ["s1"])])
    /\ authority refusingEnv (exchangeRequest (sampleClient None) ["s1"]) ([] ++ p)
       = (t, Some e)
    /\ sleeps (p ++ [EvExchange (exchangeRequest (sampleClient None) ["s1"])])
       = backoffs 0 5
    /\ exchangeCount (p ++ [EvExchange (exchangeRequest (sampleClient None) ["s1"])])
       = 6%nat.
Proof.
  apply (oauthToken_exhausts_budget refusingEnv (sampleClient None) ["s1"] (-1) []).
  intros h'. simpl. discriminate.
Defined.

(** The loop when the next [m] attempts fail and the one after them
    succeeds within the budget. *)
Lemma exchangeRetry_recovers (env : Env) (req : ExchangeRequest)
    (tok : option Token_t) (m : nat) :
  forall k retry t e h,
    (m < k)%nat ->
    (forall ext, (exchangeCount ext < m)%nat ->
                 snd (authority env req (h ++ ext)) <> None) ->
    (forall ext, exchangeCount ext = m ->
                 authority env req (h ++ ext) = (tok, None)) ->
    exists evs,
      exchangeRetry env req k retry (t, Some e) h = (Some (tok, None), evs)
      /\ sleeps evs = backoffs retry (S m)
      /\ exchangeCount evs = S m.
Proof.
  induction m as [|m IH]; intros k retry t e h Hk HFail HOk;
    (destruct k as [|k]; [lia|]); rewrite exchangeRetry_round; cbv zeta;
    set (pre := [EvWarn (pow2Duration retry) (Error e);
                 EvSleep (durMul (pow2Duration retry) Second)]).
  - rewrite (HOk pre eq_refl).
    rewrite exchangeRetry_done by (now left).
    eexists. split; [reflexivity|]. now split.
  - destruct (authority env req (h ++ pre)) as [t1 [e1|]] eqn:A.
    + destruct (IH k (retry + 1) t1 e1 (h ++ pre ++ [EvExchange req]))
        as (evs & E & HS & HX).
      * lia.
      * intros ext Hc. rewrite <- !app_assoc. apply HFail.
        unfold exchangeCount in *. rewrite !filter_app, !length_app.
        cbn. lia.
      * intros ext Hc. rewrite <- !app_assoc. apply HOk.
        unfold exchangeCount in *. rewrite !filter_app, !length_app.
        cbn. lia.
      * rewrite E. eexists. split; [reflexivity|].
        destruct (observed_round (pow2Duration retry) (Error e)
                    (durMul (pow2Duration retry) Second) req evs) as [O1 O2].
        subst pre. cbn [app]. rewrite O1, O2, HS, HX. now split.
    + exfalso. apply (HFail pre); [cbn; lia|]. now rewrite A.
Qed.

(** X5. When the first [f] attempts fail and attempt [f + 1] succeeds, with
    [f] within the budget, [oauthToken] returns the token of that attempt
    with a nil error after exactly [f] sleeps, those of the indices
    [0 .. f-1], and [f + 1] attempts. *)
Theorem oauthToken_recovers (env : Env) (c : Client) (scopes : list string)
    (numRetry : Z) (h : History) (f : nat) (tok : option Token_t) :
  (f <= Z.to_nat (retryBudget c numRetry))%nat ->
  (forall ext, (exchangeCount ext < f)%nat ->
     snd (authority env (exchangeRequest c scopes) (h ++ ext)) <> None) ->
  (forall ext, exchangeCount ext = f ->
     authority env (exchangeRequest c scopes) (h ++ ext) = (tok, None)) ->
  exists evs,
    oauthToken env c scopes numRetry h = (Some (tok, None), evs)
    /\ sleeps evs = backoffs 0 f
    /\ exchangeCount evs = S f.
Proof.
  intros Hf HFail HOk. rewrite oauthToken_run. cbv zeta.
  set (req := exchangeRequest c scopes) in *.
  destruct f as [|m].
  - specialize (HOk [] eq_refl). rewrite app_nil_r in HOk. rewrite HOk.
    eexists. split; [reflexivity|]. now split.
  - destruct (authority env req h) as [t [e|]] eqn:A.
    + destruct (0 <? retryBudget c numRetry) eqn:L;
        [|apply Z.ltb_ge in L;
          destruct (retryBudget c numRetry); cbn in Hf; lia].
      destruct (exchangeRetry_recovers env req tok m
                  (Z.to_nat (retryBudget c numRetry)) 0 t e
                  (h ++ [EvExchange req])) as (evs & E & HS & HX).
      * lia.
      * intros ext Hc. rewrite <- app_assoc. apply HFail.
        unfold exchangeCount in *. cbn. lia.
      * intros ext Hc. rewrite <- app_assoc. apply HOk.
        unfold exchangeCount in *. cbn. lia.
      * rewrite E. eexists. split; [reflexivity|].
        destruct (observed_exchange req evs) as [O1 O2].
        rewrite O1, O2, HS, HX. now split.
    + exfalso. apply (HFail []); [cbn; lia|]. rewrite app_nil_r. now rewrite A.
Qed.

Lemma oauthToken_recovers_witness :
  exists evs,
    oauthToken (flakyEnv 2 tokenForever) (sampleClient None) ["s1"] 3 []
    = (Some (Some tokenForever, None), evs)
    /\ sleeps evs = backoffs 0 2
    /\ exchangeCount evs = 3%nat.
Proof.
  apply (oauthToken_recovers (flakyEnv 2 tokenForever) (sampleClient None)
           ["s1"] 3 [] 2 (Some tokenForever)).
  - cbn. lia.
  - intros ext H. cbn [flakyEnv authority app].
    apply Nat.ltb_lt in H. rewrite H. discriminate.
  - intros ext H. cbn [flakyEnv authority app]. now rewrite H.
Defined.

(** ** The token broker in general *)

Lemma oauthToken_error_kind (env : Env) (c : Client) (scopes : list string)
    (numRetry : Z) (h : History) (t : option Token_t) (e : error) :
  fst (oauthToken env c scopes numRetry h) = Some (t, Some e) ->
  exists m, e = AuthenticationError m.
Proof.
  rewrite oauthToken_run. cbv zeta.
  destruct (authority env _ h) as [t0 [e0|]].
  - destruct (0 <? retryBudget c numRetry).
    + destruct (exchangeRetry env _ _ 0 _ _) as [[[t' [e'|]]|] evs];
        cbn [fst]; intros [= <- <-] || discriminate; eauto.
    + cbn [fst]. intros [= <- <-]. eauto.
  - discriminate.
Qed.

(** [Token] after a lookup that did not answer: its events are those of the
    lookup, those of the exchange and at most one write, and a write carries
    the non-empty token that is returned. *)
Lemma Token_miss_shape (env : Env) (c : Client) (key : string)
    (scopes : list string) (numRetry : Z) (h : History) :
  cacheMiss c key scopes h ->
  exists res W,
    Token env c key scopes numRetry h
    = (res, lookupEvents c key scopes
            ++ snd (oauthToken env c scopes numRetry
                      (h ++ lookupEvents c key scopes))
            ++ W)
    /\ (W = []
        \/ exists v ttl,
             W = [EvCacheWrite (cacheKey c key scopes) v ttl]
             /\ res = Some (v, None) /\ v <> ""
             /\ Cache c <> None /\ key <> "")
    /\ match fst (oauthToken env c scopes numRetry
                    (h ++ lookupEvents c key scopes)) with
       | Some (_, Some e) => res = Some ("", Some e)
       | Some (Some tok, None) =>
           if (AccessToken tok =? "")%string
           then res = Some ("", Some (AuthenticationError "Invalid access token"))
           else res = Some (AccessToken tok, None)
       | Some (None, None) => res = None
       | None => res = None
       end.
Proof.
  intros HM. rewrite (Token_lookup_miss env c key scopes numRetry h HM).
  unfold bind at 1. unfold bind at 1.
  destruct (oauthToken env c scopes numRetry (h ++ lookupEvents c key scopes))
    as [[[t [e|]]|] evs]; cbn [fst snd ret].
  - exists (Some ("", Some e)), []. rewrite !app_nil_r.
    split; [reflexivity|]. split; [now left|]. destruct t; reflexivity.
  - destruct t as [tok|]; cbn [deref]; unfold bind at 1; cbn [ret panic].
    + destruct (AccessToken tok =? "")%string eqn:ET; cbn [ret].
      * eexists _, []. rewrite !app_nil_r.
        split; [reflexivity|]. split; [now left | reflexivity].
      * apply String.eqb_neq in ET. unfold bind at 1.
        destruct (Cache c) as [ca|] eqn:HC;
          [destruct (key =? "")%string eqn:HK|]; cbn [ret].
        -- eexists _, []. rewrite !app_nil_r.
           split; [reflexivity|]. split; [now left | reflexivity].
        -- apply String.eqb_neq in HK. unfold bind at 1.
           destruct (IsZero (Expiry tok)); cbn [negb ret timeNow].
           ++ cbn. eexists _, [EvCacheWrite _ _ _]. rewrite ?app_nil_r.
              split; [reflexivity|]. split; [|reflexivity].
              right. do 2 eexists. repeat split; auto. discriminate.
           ++ unfold bind at 1. cbn [ret timeNow].
              destruct (0 <=? wrap64 _); cbn.
              ** eexists _, [EvCacheWrite _ _ _]. rewrite ?app_nil_r.
                 split; [reflexivity|]. split; [|reflexivity].
                 right. do 2 eexists. repeat split; auto. discriminate.
              ** eexists _, []. rewrite ?app_nil_r.
                 split; [reflexivity|]. split; [now left | reflexivity].
        -- eexists _, []. rewrite !app_nil_r.
           split; [reflexivity|]. split; [now left | reflexivity].
    + eexists _, []. rewrite !app_nil_r.
      split; [reflexivity|]. split; [now left | reflexivity].
  - eexists _, []. rewrite !app_nil_r.
    split; [reflexivity|]. split; [now left | reflexivity].
Qed.

(** A call of [Token] either hits the cache or its lookup does not answer. *)
Lemma Token_hit_or_miss (c : Client) (key : string) (scopes : list string)
    (h : History) :
  (exists ca t, Cache c = Some ca /\ key <> ""
                /\ Read ca h (cacheKey c key scopes) = Some t)
  \/ cacheMiss c key scopes h.
Proof.
  unfold cacheMiss. destruct (Cache c) as [ca|]; [|now right].
  destruct (key =? "")%string eqn:HK.
  - right. left. now apply String.eqb_eq.
  - apply String.eqb_neq in HK.
    destruct (Read ca h (cacheKey c key scopes)) as [t|] eqn:HR.
    + left. now exists ca, t.
    + right. now right.
Qed.

Lemma lookupEvents_reads (c : Client) (key : string) (scopes : list string) :
  lookupEvents c key scopes = []
  \/ lookupEvents c key scopes = [EvCacheRead (cacheKey c key scopes)].
Proof.
  unfold lookupEvents. destruct (Cache c); [|now left].
  destruct (key =? "")%string; [now left | now right].
Qed.

(** X6. An error of [Token] is always an authentication failure, and comes
    with the empty string as token. *)
Theorem Token_error_is_authentication_failure (env : Env) (c : Client)
    (key : string) (scopes : list string) (numRetry : Z) (h : History)
    (s : string) (e : error) :
  fst (Token env c key scopes numRetry h) = Some (s, Some e) ->
  s = "" /\ exists m, e = AuthenticationError m.
Proof.
  destruct (Token_hit_or_miss c key scopes h)
    as [(ca & t & HC & HK & HR) | HM].
  - rewrite (Token_hit_run env c ca key scopes numRetry h t HC HK HR).
    discriminate.
  - destruct (Token_miss_shape env c key scopes numRetry h HM)
      as (res & W & E & _ & HR).
    rewrite E. cbn [fst]. intros ->.
    destruct (fst (oauthToken env c scopes numRetry _))
      as [[[tok|] [e0|]]|] eqn:EO; try discriminate HR.
    + injection HR as -> ->. split; [reflexivity|].
      eapply oauthToken_error_kind. exact EO.
    + destruct (AccessToken tok =? "")%string; [|discriminate HR].
      injection HR as -> ->. eauto.
    + injection HR as -> ->. split; [reflexivity|].
      eapply oauthToken_error_kind. exact EO.
Qed.

Lemma Token_error_is_authentication_failure_witness :
  "" = "" /\ exists m, AuthenticationError "refused" = AuthenticationError m.
Proof.
  apply (Token_error_is_authentication_failure refusingEnv
           (sampleClient (Some memoryCache)) "svc" [] 0 []).
  reflexivity.
Defined.

(** X7. [Token] writes to the cache at most what it returns: a write among
    its events is under the key derived from the caller key and the scopes,
    carries a non-empty token, and that token is returned with a nil error.
    So a failed call writes nothing. *)
Theorem Token_writes_what_it_returns (env : Env) (c : Client)
    (key : string) (scopes : list string) (numRetry : Z) (h : History)
    (k v : string) (ttl : Z) :
  In (EvCacheWrite k v ttl) (snd (Token env c key scopes numRetry h)) ->
  k = cacheKey c key scopes /\ v <> ""
  /\ fst (Token env c key scopes numRetry h) = Some (v, None).
Proof.
  destruct (Token_hit_or_miss c key scopes h)
    as [(ca & t & HC & HK & HR) | HM].
  - rewrite (Token_hit_run env c ca key scopes numRetry h t HC HK HR).
    cbn. intros [H|[]]. discriminate H.
  - destruct (Token_miss_shape env c key scopes numRetry h HM)
      as (res & W & E & HW & _).
    rewrite E. cbn [fst snd]. intros HI.
    apply in_app_or in HI as [HI|HI].
    + destruct (lookupEvents_reads c key scopes) as [L|L]; rewrite L in HI.
      * destruct HI.
      * destruct HI as [HI|[]]. discriminate HI.
    + apply in_app_or in HI as [HI|HI].
      * pose proof (oauthToken_no_cache_event env c scopes numRetry
                      (h ++ lookupEvents c key scopes)) as P.
        rewrite Forall_forall in P. specialize (P _ HI). discriminate P.
      * destruct HW as [-> | (v' & ttl' & -> & -> & Hv & _)]; [destruct HI|].
        destruct HI as [HI|[]]. injection HI as <- <- <-. auto.
Qed.

Lemma Token_writes_what_it_returns_witness :
  "sand/resources/svc" = cacheKey (sampleClient (Some memoryCache)) "svc" []
  /\ "T" <> ""
  /\ fst (Token (grantingEnv tokenForever 1700000000)
            (sampleClient (Some memoryCache)) "svc" [] 0 [])
     = Some ("T", None).
Proof.
  apply (Token_writes_what_it_returns (grantingEnv tokenForever 1700000000)
           (sampleClient (Some memoryCache)) "svc" [] 0 []
           "sand/resources/svc" "T" 0).
  cbn. auto.
Defined.

Lemma replay_app (h1 h2 : History) (k : string) (cur : option string) :
  replay (h1 ++ h2) k cur = replay h2 k (replay h1 k cur).
Proof.
  revert cur. induction h1 as [|e h1 IH]; intros cur; [reflexivity|].
  destruct e; cbn [app replay]; apply IH.
Qed.

Lemma memoryCache_readsLastWrite (k : string) : readsLastWrite memoryCache k.
Proof.
  intros h v ttl. cbn [Read memoryCache]. rewrite replay_app.
  cbn [replay]. now rewrite String.eqb_refl.
Qed.

Lemma memoryCache_honoursDelete (k : string) : honoursDelete memoryCache k.
Proof.
  intros h. cbn [Read memoryCache]. rewrite replay_app.
  cbn [replay]. now rewrite String.eqb_refl.
Qed.

Lemma exchanger_events_no_write (evs : list event) :
  Forall (fun e => isExchangerEvent e = true) evs ->
  filter isCacheWrite evs = [].
Proof.
  induction 1 as [|e l He _ IH]; [reflexivity|].
  destruct e; try discriminate He; exact IH.
Qed.

(** X8. Whenever [Token] wrote to the cache, the next call of [Token] with
    the same caller key and scopes, on a cache that answers a read with the
    value just written, returns the same token by one cache read, without an
    exchange, whatever the endpoint and the budget of that call. *)
Theorem Token_second_call_hits (env env' : Env) (c : Client)
    (ca : cache_Cache) (key : string) (scopes : list string)
    (numRetry numRetry' : Z) (h : History) :
  Cache c = Some ca ->
  readsLastWrite ca (cacheKey c key scopes) ->
  filter isCacheWrite (snd (Token env c key scopes numRetry h)) <> [] ->
  exists v,
    fst (Token env c key scopes numRetry h) = Some (v, None)
    /\ Token env' c key scopes numRetry'
         (h ++ snd (Token env c key scopes numRetry h))
       = (Some (v, None), [EvCacheRead (cacheKey c key scopes)]).
Proof.
  intros HC HRW HW.
  destruct (Token_hit_or_miss c key scopes h)
    as [(ca' & t & HC' & HK & HR) | HM].
  - rewrite (Token_hit_run env c ca' key scopes numRetry h t HC' HK HR) in HW.
    now elim HW.
  - destruct (Token_miss_shape env c key scopes numRetry h HM)
      as (res & W & E & HWr & _).
    rewrite E in *. cbn [fst snd] in *.
    destruct HWr as [-> | (v & ttl & -> & -> & Hv & _ & HK)].
    + exfalso. apply HW. rewrite app_nil_r, filter_app.
      rewrite (exchanger_events_no_write _ (oauthToken_events _ _ _ _ _)).
      rewrite app_nil_r.
      destruct (lookupEvents_reads c key scopes) as [L|L]; now rewrite L.
    + exists v. split; [reflexivity|].
      apply (Token_hit_run env' c ca); auto.
      rewrite !app_assoc. apply HRW.
Qed.

Lemma Token_second_call_hits_witness :
  exists v,
    fst (Token (grantingEnv tokenForever 1700000000)
           (sampleClient (Some memoryCache)) "svc" [] 0 []) = Some (v, None)
    /\ Token refusingEnv (sampleClient (Some memoryCache)) "svc" [] 3
         ([] ++ snd (Token (grantingEnv tokenForever 1700000000)
                       (sampleClient (Some memoryCache)) "svc" [] 0 []))
       = (Some (v, None),
          [EvCacheRead (cacheKey (sampleClient (Some memoryCache)) "svc" [])]).
Proof.
  apply (Token_second_call_hits (grantingEnv tokenForever 1700000000)
           refusingEnv (sampleClient (Some memoryCache)) memoryCache
           "svc" [] 0 3 []).
  - reflexivity.
  - apply memoryCache_readsLastWrite.
  - cbn. discriminate.
Defined.

(** The events of [Token] concern one cache entry only. *)
Lemma Token_on_its_key (env : Env) (c : Client) (key : string)
    (scopes : list string) (numRetry : Z) (h : History) :
  Forall (onCacheKey (cacheKey c key scopes))
    (snd (Token env c key scopes numRetry h)).
Proof.
  destruct (Token_hit_or_miss c key scopes h)
    as [(ca & t & HC & HK & HR) | HM].
  - rewrite (Token_hit_run env c ca key scopes numRetry h t HC HK HR).
    repeat constructor.
  - destruct (Token_miss_shape env c key scopes numRetry h HM)
      as (res & W & E & HW & _).
    rewrite E. cbn [snd]. rewrite !Forall_app. repeat split.
    + destruct (lookupEvents_reads c key scopes) as [L|L]; rewrite L;
        repeat constructor.
    + eapply Forall_impl; [|apply oauthToken_events].
      intros [] H; try discriminate H; exact I.
    + destruct HW as [-> | (v & ttl & -> & _)]; repeat constructor.
Qed.

(** Without a cache [Token] has the events of the exchange only. *)
Lemma Token_without_cache (env : Env) (c : Client) (key : string)
    (scopes : list string) (numRetry : Z) (h : History) :
  Cache c = None ->
  Forall (fun e => isCacheEvent e = false)
    (snd (Token env c key scopes numRetry h)).
Proof.
  intros HC.
  assert (HM : cacheMiss c key scopes h) by (unfold cacheMiss; now rewrite HC).
  destruct (Token_miss_shape env c key scopes numRetry h HM)
    as (res & W & E & HW & _).
  rewrite E. cbn [snd].
  assert (L : lookupEvents c key scopes = [])
    by (unfold lookupEvents; now rewrite HC).
  rewrite L. cbn [app]. rewrite Forall_app. split.
  - apply oauthToken_no_cache_event.
  - destruct HW as [-> | (v & ttl & _ & _ & _ & N & _)]; [constructor|].
    now elim N.
Qed.

(** A property of single events that holds of what a round of the retry
    loop emits holds of every event of the loop, and of a whole run. *)
Lemma requestRetry_events_all (env : Env) (c : Client) (key : string)
    (scopes : list string) (exec : Exec) (P : event -> Prop) :
  (forall retry, Forall P (retryPrelude c key scopes retry)) ->
  (forall h, Forall P (snd (Token env c key scopes 0 h))) ->
  (forall t, P (EvExec t)) ->
  forall k retry resp h,
    Forall P (snd (requestRetry env c key scopes exec k retry resp h)).
Proof.
  intros HP HT HE. induction k as [|k IH]; intros retry [r|] h;
    try (rewrite requestRetry_nil_response; constructor).
  - rewrite requestRetry_stop by (now right). constructor.
  - destruct (Z.eq_dec (StatusCode r) StatusUnauthorized) as [HS|HS];
      [|rewrite requestRetry_stop by (now left); constructor].
    rewrite (requestRetry_round env c key scopes exec k retry r h HS).
    cbv zeta. specialize (HP retry).
    set (pre := retryPrelude c key scopes retry) in *.
    specialize (HT (h ++ pre)).
    destruct (Token env c key scopes 0 (h ++ pre)) as [[[t [e|]]|] e1];
      cbn [snd] in *; try (apply Forall_app; now split).
    specialize (IH (retry + 1) (fst (exec (h ++ pre ++ e1) t))
                  (h ++ pre ++ e1 ++ [EvExec t])).
    destruct (exec (h ++ pre ++ e1) t) as [resp' [e|]]; cbn [fst snd] in *.
    + rewrite !Forall_app. repeat split; auto.
    + destruct (requestRetry env c key scopes exec k (retry + 1) resp' _)
        as [res evs]. cbn [snd] in *.
      rewrite !Forall_app. repeat split; auto.
Qed.

Lemma RequestWithCustomRetry_events_all (env : Env) (c : Client)
    (key : string) (scopes : list string) (numRetry : Z) (exec : Exec)
    (P : event -> Prop) :
  (forall retry, Forall P (retryPrelude c key scopes retry)) ->
  (forall n h, Forall P (snd (Token env c key scopes n h))) ->
  (forall t, P (EvExec t)) ->
  forall h,
    Forall P (snd (RequestWithCustomRetry env c key scopes numRetry exec h)).
Proof.
  intros HP HT HE h. rewrite RequestWithCustomRetry_run. cbv zeta.
  set (n := if numRetry <? 0 then MaxRetry c else numRetry).
  pose proof (HT n h) as T1.
  destruct (Token env c key scopes n h) as [[[t [e|]]|] e1]; cbn [snd] in *;
    try exact T1.
  pose proof (requestRetry_events_all env c key scopes exec P HP (HT 0) HE
                (Z.to_nat n) 0 (fst (exec (h ++ e1) t))
                (h ++ e1 ++ [EvExec t])) as L.
  destruct (exec (h ++ e1) t) as [resp [e|]]; cbn [fst snd] in *.
  - rewrite Forall_app. split; auto.
  - destruct (0 <? n).
    + destruct (requestRetry env c key scopes exec (Z.to_nat n) 0 resp _)
        as [res evs]. cbn [snd] in *.
      rewrite Forall_app. split; auto.
    + cbn [snd]. rewrite Forall_app. split; auto.
Qed.

(** X9. A run of [RequestWithCustomRetry] reads, writes and deletes one
    cache entry only, the one derived from its caller key and scopes: the
    entries of other calls are never touched. *)
Theorem RequestWithCustomRetry_touches_one_entry (env : Env) (c : Client)
    (key : string) (scopes : list string) (numRetry : Z) (exec : Exec)
    (h : History) (e : event) (k : string) :
  In e (snd (RequestWithCustomRetry env c key scopes numRetry exec h)) ->
  (e = EvCacheRead k \/ e = EvCacheDelete k
   \/ exists v ttl, e = EvCacheWrite k v ttl) ->
  k = cacheKey c key scopes.
Proof.
  intros HI HE.
  pose proof (RequestWithCustomRetry_events_all env c key scopes numRetry exec
                (onCacheKey (cacheKey c key scopes))) as A.
  assert (F : Forall (onCacheKey (cacheKey c key scopes))
                (snd (RequestWithCustomRetry env c key scopes numRetry exec h))).
  { apply A.
    - intros retry. unfold retryPrelude. destruct (Cache c); repeat constructor.
    - intros n h'. apply Token_on_its_key.
    - intros t. exact I. }
  rewrite Forall_forall in F. specialize (F e HI).
  destruct HE as [-> | [-> | (v & ttl & ->)]]; cbn in F; congruence.
Qed.

Lemma RequestWithCustomRetry_touches_one_entry_witness :
  "sand/resources/svc/s1_s2"
  = cacheKey (sampleClient (Some memoryCache)) "svc" ["s1"; "s2"].
Proof.
  apply (RequestWithCustomRetry_touches_one_entry
           (grantingEnv tokenForever 1700000000)
           (sampleClient (Some memoryCache)) "svc" ["s1"; "s2"] 2
           (staleService 2) [] (EvCacheDelete "sand/resources/svc/s1_s2")).
  - apply nth_error_In with (n := 6%nat). reflexivity.
  - right. now left.
Defined.

(** X10. On a client without a cache, a run of [RequestWithCustomRetry] has
    no cache event at all, for every caller key. *)
Theorem RequestWithCustomRetry_without_cache (env : Env) (c : Client)
    (key : string) (scopes : list string) (numRetry : Z) (exec : Exec)
    (h : History) :
  Cache c = None ->
  Forall (fun e => isCacheEvent e = false)
    (snd (RequestWithCustomRetry env c key scopes numRetry exec h)).
Proof.
  intros HC. apply RequestWithCustomRetry_events_all.
  - intros retry. unfold retryPrelude. rewrite HC. repeat constructor.
  - intros n h'. now apply Token_without_cache.
  - reflexivity.
Qed.

Lemma RequestWithCustomRetry_without_cache_witness :
  Forall (fun e => isCacheEvent e = false)
    (snd (RequestWithCustomRetry (grantingEnv tokenForever 1700000000)
            (sampleClient None) "svc" ["s1"] 2 (staleService 2) [])).
Proof.
  apply (RequestWithCustomRetry_without_cache
           (grantingEnv tokenForever 1700000000) (sampleClient None)
           "svc" ["s1"] 2 (staleService 2) []).
  reflexivity.
Defined.

(** ** The request orchestrator in general *)

Lemma RequestWithCustomRetry_budget (env : Env) (c : Client) (key : string)
    (scopes : list string) (numRetry : Z) (exec : Exec) (h : History) :
  RequestWithCustomRetry env c key scopes numRetry exec h
  = match Token env c key scopes (retryBudget c numRetry) h with
    | (Some (_, Some e), e1) => (Some (None, Some e), e1)
    | (Some (t, None), e1) =>
        match exec (h ++ e1) t with
        | (resp, Some e) => (Some (resp, Some e), e1 ++ [EvExec t])
        | (resp, None) =>
            if 0 <? retryBudget c numRetry
            then
              let (res, evs) :=
                requestRetry env c key scopes exec
                  (Z.to_nat (retryBudget c numRetry)) 0 resp
                  (h ++ e1 ++ [EvExec t]) in
              (res, e1 ++ EvExec t :: evs)
            else (Some (resp, None), e1 ++ [EvExec t])
        end
    | (None, e1) => (None, e1)
    end.
Proof. apply RequestWithCustomRetry_run. Qed.

Lemma no_exec_count (evs : list event) :
  Forall (fun e => isExec e = false) evs -> execCount evs = 0%nat.
Proof.
  unfold execCount. induction 1 as [|x l Hx _ IH]; [reflexivity|].
  cbn [filter]. now rewrite Hx.
Qed.

(** X11. When the first token fetch fails, [RequestWithCustomRetry] returns a
    nil response with the error of the fetch, adds nothing to the events of
    the fetch, and never calls [exec]. *)
Theorem RequestWithCustomRetry_token_failure (env : Env) (c : Client)
    (key : string) (scopes : list string) (numRetry : Z) (exec : Exec)
    (h : History) (s : string) (e : error) (e1 : list event) :
  Token env c key scopes (retryBudget c numRetry) h = (Some (s, Some e), e1) ->
  RequestWithCustomRetry env c key scopes numRetry exec h
  = (Some (None, Some e), e1)
  /\ execCount e1 = 0%nat.
Proof.
  intros HT. rewrite RequestWithCustomRetry_budget, HT. split; [reflexivity|].
  pose proof (Token_no_exec env c key scopes (retryBudget c numRetry) h) as P.
  rewrite HT in P. cbn [snd] in P. now apply no_exec_count.
Qed.

Lemma RequestWithCustomRetry_token_failure_witness :
  RequestWithCustomRetry refusingEnv (sampleClient None) "svc" [] 0
    (staleService 0) []
  = (Some (None, Some (AuthenticationError "refused")),
     [EvExchange (sampleRequest [])])
  /\ execCount [EvExchange (sampleRequest [])] = 0%nat.
Proof.
  apply (RequestWithCustomRetry_token_failure refusingEnv (sampleClient None)
           "svc" [] 0 (staleService 0) [] "").
  reflexivity.
Defined.

(** X12. A first response whose status is not 401 (a 502, say) is returned as
    it is with a nil error, whatever the retry budget: nothing follows the
    one call of [exec]. *)
Theorem RequestWithCustomRetry_other_status (env : Env) (c : Client)
    (key : string) (scopes : list string) (numRetry : Z) (exec : Exec)
    (h : History) (t : string) (e1 : list event) (r : Response) :
  Token env c key scopes (retryBudget c numRetry) h = (Some (t, None), e1) ->
  exec (h ++ e1) t = (Some r, None) ->
  StatusCode r <> StatusUnauthorized ->
  RequestWithCustomRetry env c key scopes numRetry exec h
  = (Some (Some r, None), e1 ++ [EvExec t]).
Proof.
  intros HT HE HS. rewrite RequestWithCustomRetry_budget, HT, HE.
  destruct (0 <? retryBudget c numRetry); [|reflexivity].
  rewrite requestRetry_stop by (now left). reflexivity.
Qed.

Lemma RequestWithCustomRetry_other_status_witness :
  RequestWithCustomRetry (grantingEnv tokenForever 1700000000)
    (sampleClient None) "svc" [] 5 (constService (Some badGateway)) []
  = (Some (Some badGateway, None),
     [EvExchange (sampleRequest [])] ++ [EvExec "T"]).
Proof.
  apply (RequestWithCustomRetry_other_status
           (grantingEnv tokenForever 1700000000) (sampleClient None) "svc" []
           5 (constService (Some badGateway)) [] "T"
           [EvExchange (sampleRequest [])] badGateway).
  - reflexivity.
  - reflexivity.
  - discriminate.
Defined.

(** X13. A callback that returns a nil response with a nil error: with a
    positive budget the status of the nil response is read and the run
    panics right after the call; with no budget the nil pair is returned. *)
Theorem RequestWithCustomRetry_nil_response (env : Env) (c : Client)
    (key : string) (scopes : list string) (numRetry : Z) (exec : Exec)
    (h : History) (t : string) (e1 : list event) :
  Token env c key scopes (retryBudget c numRetry) h = (Some (t, None), e1) ->
  exec (h ++ e1) t = (None, None) ->
  RequestWithCustomRetry env c key scopes numRetry exec h
  = (if 0 <? retryBudget c numRetry then None else Some (None, None),
     e1 ++ [EvExec t]).
Proof.
  intros HT HE. rewrite RequestWithCustomRetry_budget, HT, HE.
  destruct (0 <? retryBudget c numRetry); [|reflexivity].
  rewrite requestRetry_nil_response. reflexivity.
Qed.

Lemma RequestWithCustomRetry_nil_response_witness :
  RequestWithCustomRetry (grantingEnv tokenForever 1700000000)
    (sampleClient None) "svc" [] 1 (constService None) []
  = (None, [EvExchange (sampleRequest [])] ++ [EvExec "T"]).
Proof.
  apply (RequestWithCustomRetry_nil_response
           (grantingEnv tokenForever 1700000000) (sampleClient None) "svc" []
           1 (constService None) [] "T" [EvExchange (sampleRequest [])]);
    reflexivity.
Defined.

(** X14. When the token fetch of the first retry fails, the run returns the
    unauthorized response of the first call together with the error of the
    fetch: both are non-nil, and [exec] is not called again. *)
Theorem RequestWithCustomRetry_retry_fetch_failure (env : Env) (c : Client)
    (key : string) (scopes : list string) (numRetry : Z) (exec : Exec)
    (h : History) (t s : string) (e1 e2 : list event) (r : Response)
    (e : error) :
  0 < retryBudget c numRetry ->
  Token env c key scopes (retryBudget c numRetry) h = (Some (t, None), e1) ->
  exec (h ++ e1) t = (Some r, None) ->
  StatusCode r = StatusUnauthorized ->
  Token env c key scopes 0
    ((h ++ e1 ++ [EvExec t]) ++ retryPrelude c key scopes 0)
  = (Some (s, Some e), e2) ->
  RequestWithCustomRetry env c key scopes numRetry exec h
  = (Some (Some r, Some e),
     e1 ++ EvExec t :: retryPrelude c key scopes 0 ++ e2).
Proof.
  intros HB HT HE HS HT2. rewrite RequestWithCustomRetry_budget, HT, HE.
  apply Z.ltb_lt in HB as HB'. rewrite HB'.
  destruct (Z.to_nat (retryBudget c numRetry)) as [|k] eqn:EK; [lia|].
  rewrite (requestRetry_round env c key scopes exec k 0 r _ HS). cbv zeta.
  rewrite HT2. reflexivity.
Qed.

Lemma RequestWithCustomRetry_retry_fetch_failure_witness :
  RequestWithCustomRetry (revokingEnv tokenForever) (sampleClient None)
    "svc" [] 2 (staleService 5) []
  = (Some (Some unauthorized, Some (AuthenticationError "revoked")),
     [EvExchange (sampleRequest [])]
       ++ EvExec "T" :: retryPrelude (sampleClient None) "svc" [] 0
       ++ [EvExchange (sampleRequest [])]).
Proof.
  apply (RequestWithCustomRetry_retry_fetch_failure
           (revokingEnv tokenForever) (sampleClient None) "svc" [] 2
           (staleService 5) [] "T" "" [EvExchange (sampleRequest [])]
           [EvExchange (sampleRequest [])] unauthorized
           (AuthenticationError "revoked")); reflexivity.
Defined.

Lemma exchangeCount_app (a b : list event) :
  exchangeCount (a ++ b) = (exchangeCount a + exchangeCount b)%nat.
Proof. unfold exchangeCount. now rewrite filter_app, length_app. Qed.

Lemma Token_zero_retry_silent (env : Env) (c : Client) (key : string)
    (scopes : list string) (h : History) :
  sleeps (snd (Token env c key scopes 0 h)) = []
  /\ evictions (snd (Token env c key scopes 0 h)) = []
  /\ execCount (snd (Token env c key scopes 0 h)) = 0%nat.
Proof. apply fetch_events_silent, Token_zero_retry_events. Qed.

Ltac no_round c :=
  exists 0%nat; destruct (Cache c); cbn; repeat split; lia.

(** The rounds of the retry loop of [RequestWithCustomRetry]: [j] rounds
    within the budget [k], one sleep and one eviction each, and at most one
    call of [exec] each. *)
Lemma requestRetry_rounds (env : Env) (c : Client) (key : string)
    (scopes : list string) (exec : Exec) (k : nat) :
  forall retry resp h, exists j,
    (j <= k)%nat
    /\ sleeps (snd (requestRetry env c key scopes exec k retry resp h))
       = backoffs retry j
    /\ evictions (snd (requestRetry env c key scopes exec k retry resp h))
       = match Cache c with
         | Some _ => repeat (cacheKey c key scopes) j
         | None => []
         end
    /\ (execCount (snd (requestRetry env c key scopes exec k retry resp h))
        <= j)%nat.
Proof.
  induction k as [|k IH]; intros retry [r|] h;
    try (rewrite requestRetry_nil_response; no_round c).
  - rewrite requestRetry_stop by (now right). no_round c.
  - destruct (Z.eq_dec (StatusCode r) StatusUnauthorized) as [HS|HS];
      [|rewrite requestRetry_stop by (now left); no_round c].
    rewrite (requestRetry_round env c key scopes exec k retry r h HS).
    cbv zeta.
    destruct (retryPrelude_observed c key scopes retry) as (PS & PE & PX).
    set (pre := retryPrelude c key scopes retry) in *.
    destruct (Token_zero_retry_silent env c key scopes (h ++ pre))
      as (TS & TE & TX).
    destruct (Token env c key scopes 0 (h ++ pre)) as [[[t [e|]]|] e1];
      cbn [snd] in *.
    + exists 1%nat. autorewrite with observe. rewrite PS, PE, PX, TS, TE, TX.
      destruct (Cache c); repeat split; cbn; lia.
    + destruct (IH (retry + 1) (fst (exec (h ++ pre ++ e1) t))
                  (h ++ pre ++ e1 ++ [EvExec t])) as (j & Hj & HS' & HE' & HX').
      destruct (exec (h ++ pre ++ e1) t) as [resp' [e|]]; cbn [fst snd] in *.
      * exists 1%nat. autorewrite with observe.
        rewrite PS, PE, PX, TS, TE, TX.
        destruct (Cache c); repeat split; cbn; lia.
      * destruct (requestRetry env c key scopes exec k (retry + 1) resp' _)
          as [res evs]. cbn [snd] in *.
        exists (S j). autorewrite with observe.
        rewrite PS, PE, PX, TS, TE, TX, HS', HE'.
        destruct (Cache c); repeat split; cbn; lia.
    + exists 1%nat. autorewrite with observe. rewrite PS, PE, PX, TS, TE, TX.
      destruct (Cache c); repeat split; cbn; lia.
Qed.

(** X15. Whatever the endpoint, the cache and the callback do, a run of
    [RequestWithCustomRetry] with budget [n] consists of the events of the
    first token fetch followed by at most [n] rounds: the sleeps after the
    fetch are the backoff schedule from index 0 without a gap, there is one
    eviction per sleep when a cache is configured, and [exec] is called at
    most [n + 1] times in the whole run. *)
Theorem RequestWithCustomRetry_bounded (env : Env) (c : Client)
    (key : string) (scopes : list string) (numRetry : Z) (exec : Exec)
    (h : History) :
  let n := Z.to_nat (retryBudget c numRetry) in
  let run := RequestWithCustomRetry env c key scopes numRetry exec h in
  exists rest j,
    snd run = snd (Token env c key scopes (retryBudget c numRetry) h) ++ rest
    /\ (j <= n)%nat
    /\ sleeps rest = backoffs 0 j
    /\ evictions rest = match Cache c with
                        | Some _ => repeat (cacheKey c key scopes) j
                        | None => []
                        end
    /\ (execCount (snd run) <= S j)%nat.
Proof.
  intros n run. subst run. rewrite RequestWithCustomRetry_budget.
  pose proof (Token_no_exec env c key scopes (retryBudget c numRetry) h) as NT.
  apply no_exec_count in NT.
  destruct (Token env c key scopes (retryBudget c numRetry) h)
    as [[[t [e|]]|] e1]; cbn [snd] in *.
  - exists [], 0%nat. rewrite app_nil_r, NT.
    destruct (Cache c); repeat split; lia.
  - destruct (requestRetry_rounds env c key scopes exec n 0
                (fst (exec (h ++ e1) t)) (h ++ e1 ++ [EvExec t]))
      as (j & Hj & HS & HE & HX).
    destruct (exec (h ++ e1) t) as [resp [e|]]; cbn [fst snd] in *.
    + exists [EvExec t], 0%nat. autorewrite with observe. rewrite NT.
      destruct (Cache c); repeat split; cbn; lia.
    + destruct (0 <? retryBudget c numRetry).
      * fold n.
        destruct (requestRetry env c key scopes exec n 0 resp _) as [res evs].
        cbn [snd] in *. exists (EvExec t :: evs), j.
        autorewrite with observe. rewrite NT, HS, HE.
        destruct (Cache c); repeat split; cbn; lia.
      * exists [EvExec t], 0%nat. cbn [snd]. autorewrite with observe.
        rewrite NT. destruct (Cache c); repeat split; cbn; lia.
  - exists [], 0%nat. rewrite app_nil_r, NT.
    destruct (Cache c); repeat split; lia.
Qed.

(** A fetch without a budget after a lookup that did not answer is one
    exchange. *)
Lemma Token_zero_retry_miss_exchanges (env : Env) (c : Client) (key : string)
    (scopes : list string) (h : History) :
  cacheMiss c key scopes h ->
  exchangeCount (snd (Token env c key scopes 0 h)) = 1%nat.
Proof.
  intros HM.
  destruct (Token_miss_shape env c key scopes 0 h HM) as (res & W & E & HW & _).
  rewrite E. cbn [snd]. rewrite !exchangeCount_app, oauthToken_zero_retry.
  assert (L : exchangeCount (lookupEvents c key scopes) = 0%nat).
  { destruct (lookupEvents_reads c key scopes) as [L|L]; now rewrite L. }
  assert (R : exchangeCount W = 0%nat).
  { destruct HW as [-> | (v & ttl & -> & _)]; reflexivity. }
  rewrite L, R. reflexivity.
Qed.

Lemma retryPrelude_miss (c : Client) (key : string) (scopes : list string)
    (retry : Z) (h : History) :
  match Cache c with
  | Some ca => honoursDelete ca (cacheKey c key scopes)
  | None => True
  end ->
  cacheMiss c key scopes (h ++ retryPrelude c key scopes retry).
Proof.
  unfold cacheMiss, retryPrelude. destruct (Cache c) as [ca|]; [|trivial].
  intros HD. right. rewrite app_assoc. apply HD.
Qed.

Lemma requestRetry_exchanges (env : Env) (c : Client) (key : string)
    (scopes : list string) (exec : Exec) (k : nat) :
  match Cache c with
  | Some ca => honoursDelete ca (cacheKey c key scopes)
  | None => True
  end ->
  forall retry resp h,
    exchangeCount (snd (requestRetry env c key scopes exec k retry resp h))
    = List.length (sleeps (snd (requestRetry env c key scopes exec k retry resp h))).
Proof.
  intros HD. induction k as [|k IH]; intros retry [r|] h;
    try (now rewrite requestRetry_nil_response).
  - now rewrite requestRetry_stop by (now right).
  - destruct (Z.eq_dec (StatusCode r) StatusUnauthorized) as [HS|HS];
      [|now rewrite requestRetry_stop by (now left)].
    rewrite (requestRetry_round env c key scopes exec k retry r h HS).
    cbv zeta.
    destruct (retryPrelude_observed c key scopes retry) as (PS & _ & _).
    assert (PC : exchangeCount (retryPrelude c key scopes retry) = 0%nat)
      by (unfold retryPrelude; destruct (Cache c); reflexivity).
    pose proof (retryPrelude_miss c key scopes retry h HD) as HM.
    set (pre := retryPrelude c key scopes retry) in *.
    destruct (Token_zero_retry_silent env c key scopes (h ++ pre))
      as (TS & _ & _).
    pose proof (Token_zero_retry_miss_exchanges env c key scopes _ HM) as TC.
    destruct (Token env c key scopes 0 (h ++ pre)) as [[[t [e|]]|] e1];
      cbn [snd] in *.
    + rewrite exchangeCount_app, sleeps_app, PS, PC, TS, TC. reflexivity.
    + specialize (IH (retry + 1) (fst (exec (h ++ pre ++ e1) t))
                    (h ++ pre ++ e1 ++ [EvExec t])).
      destruct (exec (h ++ pre ++ e1) t) as [resp' [e|]]; cbn [fst snd] in *.
      * rewrite !exchangeCount_app, !sleeps_app, PS, PC, TS, TC. reflexivity.
      * destruct (requestRetry env c key scopes exec k (retry + 1) resp' _)
          as [res evs]. cbn [snd] in *.
        rewrite !exchangeCount_app, !sleeps_app, PS, PC, TS, TC.
        change (exchangeCount (EvExec t :: evs)) with (exchangeCount evs).
        rewrite sleeps_exec, IH. reflexivity.
    + rewrite exchangeCount_app, sleeps_app, PS, PC, TS, TC. reflexivity.
Qed.

(** X16. On a cache that answers nothing for an entry just deleted (or
    without a cache), a retry never reuses a cached token: after the first
    token fetch, a run of [RequestWithCustomRetry] makes exactly one
    exchange per backoff sleep. *)
Theorem RequestWithCustomRetry_retries_fetch_fresh (env : Env) (c : Client)
    (key : string) (scopes : list string) (numRetry : Z) (exec : Exec)
    (h : History) :
  match Cache c with
  | Some ca => honoursDelete ca (cacheKey c key scopes)
  | None => True
  end ->
  exists rest,
    snd (RequestWithCustomRetry env c key scopes numRetry exec h)
    = snd (Token env c key scopes (retryBudget c numRetry) h) ++ rest
    /\ exchangeCount rest = List.length (sleeps rest).
Proof.
  intros HD. rewrite RequestWithCustomRetry_budget.
  destruct (Token env c key scopes (retryBudget c numRetry) h)
    as [[[t [e|]]|] e1]; cbn [snd].
  - exists []. now rewrite app_nil_r.
  - pose proof (requestRetry_exchanges env c key scopes exec
                  (Z.to_nat (retryBudget c numRetry)) HD 0
                  (fst (exec (h ++ e1) t)) (h ++ e1 ++ [EvExec t])) as L.
    destruct (exec (h ++ e1) t) as [resp [e|]]; cbn [fst snd] in *.
    + now exists [EvExec t].
    + destruct (0 <? retryBudget c numRetry).
      * destruct (requestRetry env c key scopes exec _ 0 resp _) as [res evs].
        cbn [snd] in *. exists (EvExec t :: evs). split; [reflexivity|].
        rewrite sleeps_exec, <- L. reflexivity.
      * now exists [EvExec t].
  - exists []. now rewrite app_nil_r.
Qed.

Lemma RequestWithCustomRetry_retries_fetch_fresh_witness :
  exists rest,
    snd (RequestWithCustomRetry (grantingEnv tokenForever 1700000000)
           (sampleClient (Some memoryCache)) "svc" ["s1"] 2 (staleService 2) [])
    = snd (Token (grantingEnv tokenForever 1700000000)
             (sampleClient (Some memoryCache)) "svc" ["s1"]
             (retryBudget (sampleClient (Some memoryCache)) 2) []) ++ rest
    /\ exchangeCount rest = List.length (sleeps rest).
Proof.
  apply (RequestWithCustomRetry_retries_fetch_fresh
           (grantingEnv tokenForever 1700000000)
           (sampleClient (Some memoryCache)) "svc" ["s1"] 2 (staleService 2) []).
  apply memoryCache_honoursDelete.
Defined.

(** The loop when every token is granted and every response is
    unauthorized: it uses the whole budget. *)
Lemma requestRetry_all_unauthorized (env : Env) (c : Client) (key : string)
    (scopes : list string) (exec : Exec) :
  (forall req h', exists tok,
      authority env req h' = (Some tok, None) /\ AccessToken tok <> "") ->
  (forall h' t, exists r,
      exec h' t = (Some r, None) /\ StatusCode r = StatusUnauthorized) ->
  forall k retry r h,
    StatusCode r = StatusUnauthorized ->
    exists r' evs,
      requestRetry env c key scopes exec k retry (Some r) h
      = (Some (Some r', None), evs)
      /\ StatusCode r' = StatusUnauthorized
      /\ sleeps evs = backoffs retry k
      /\ execCount evs = k.
Proof.
  intros HA HX. induction k as [|k IH]; intros retry r h HS.
  - exists r, []. rewrite requestRetry_stop by (now right). now repeat split.
  - rewrite (requestRetry_round env c key scopes exec k retry r h HS).
    cbv zeta.
    destruct (retryPrelude_observed c key scopes retry) as (PS & _ & PX).
    set (pre := retryPrelude c key scopes retry) in *.
    destruct (Token_granted env c HA key scopes 0 (h ++ pre))
      as (t & e1 & ET & F).
    destruct (fetch_events_silent e1 F) as (TS & _ & TX).
    rewrite ET.
    destruct (HX (h ++ pre ++ e1) t) as (r1 & EX & HS1). rewrite EX.
    destruct (IH (retry + 1) r1 (h ++ pre ++ e1 ++ [EvExec t]) HS1)
      as (r' & evs & E & HS' & HSl & HXc).
    rewrite E. exists r'. eexists. split; [reflexivity|].
    split; [exact HS'|]. autorewrite with observe.
    rewrite PS, PX, TS, TX, HSl, HXc. split; reflexivity.
Qed.

(** X17. When the endpoint grants a non-empty token at every attempt and
    every call of [exec] answers 401 without an error, a run with budget [n]
    ends after [n] sleeps, those of the indices [0 .. n-1], and [n + 1] calls
    of [exec], and returns the last unauthorized response with a nil error:
    exhausting the retries is not an error. *)
Theorem RequestWithCustomRetry_exhausts_budget (env : Env) (c : Client)
    (key : string) (scopes : list string) (numRetry : Z) (exec : Exec)
    (h : History) :
  (forall req h', exists tok,
      authority env req h' = (Some tok, None) /\ AccessToken tok <> "") ->
  (forall h' t, exists r,
      exec h' t = (Some r, None) /\ StatusCode r = StatusUnauthorized) ->
  let n := Z.to_nat (retryBudget c numRetry) in
  exists r evs,
    RequestWithCustomRetry env c key scopes numRetry exec h
    = (Some (Some r, None), evs)
    /\ StatusCode r = StatusUnauthorized
    /\ sleeps evs = backoffs 0 n
    /\ execCount evs = S n.
Proof.
  intros HA HX n. rewrite RequestWithCustomRetry_budget.
  destruct (Token_granted env c HA key scopes (retryBudget c numRetry) h)
    as (t & e1 & ET & F).
  destruct (fetch_events_silent e1 F) as (TS & _ & TX).
  rewrite ET. destruct (HX (h ++ e1) t) as (r1 & EX & HS1). rewrite EX.
  destruct (0 <? retryBudget c numRetry) eqn:L.
  - destruct (requestRetry_all_unauthorized env c key scopes exec HA HX n 0 r1
                (h ++ e1 ++ [EvExec t]) HS1) as (r' & evs & E & HS' & HSl & HXc).
    fold n. rewrite E. exists r'. eexists. split; [reflexivity|].
    split; [exact HS'|]. autorewrite with observe.
    rewrite TS, TX, HSl, HXc. split; reflexivity.
  - exists r1. eexists. split; [reflexivity|]. split; [exact HS1|].
    apply Z.ltb_ge in L.
    assert (n = 0%nat) as ->
      by (subst n; destruct (retryBudget c numRetry); try reflexivity; lia).
    autorewrite with observe. rewrite TS, TX. split; reflexivity.
Qed.

Lemma RequestWithCustomRetry_exhausts_budget_witness :
  exists r evs,
    RequestWithCustomRetry (grantingEnv tokenForever 1700000000)
      (sampleClient (Some memoryCache)) "svc" ["s1"] (-1)
      (constService (Some unauthorized)) []
    = (Some (Some r, None), evs)
    /\ StatusCode r = StatusUnauthorized
    /\ sleeps evs = backoffs 0 5
    /\ execCount evs = 6%nat.
Proof.
  apply (RequestWithCustomRetry_exhausts_budget
           (grantingEnv tokenForever 1700000000)
           (sampleClient (Some memoryCache)) "svc" ["s1"] (-1)
           (constService (Some unauthorized)) []).
  - intros req h'. exists tokenForever. split; [reflexivity | discriminate].
  - intros h' t. exists unauthorized. split; reflexivity.
Defined.

(** ** Defaults *)

(** X18. A negative [numRetry] stands for [MaxRetry] everywhere: in the
    exchange, in [Token], and in [RequestWithCustomRetry], which then is
    [Request], also when [MaxRetry] itself is negative. *)
Theorem negative_numRetry_is_MaxRetry (env : Env) (c : Client) (key : string)
    (scopes : list string) (numRetry : Z) (exec : Exec) (h : History) :
  numRetry < 0 ->
  oauthToken env c scopes numRetry h = oauthToken env c scopes (MaxRetry c) h
  /\ Token env c key scopes numRetry h = Token env c key scopes (MaxRetry c) h
  /\ RequestWithCustomRetry env c key scopes numRetry exec h
     = Request env c key scopes exec h.
Proof.
  intros HN. apply Z.ltb_lt in HN.
  assert (O : forall h', oauthToken env c scopes numRetry h'
                         = oauthToken env c scopes (MaxRetry c) h').
  { intros h'. unfold oauthToken. rewrite HN.
    destruct (MaxRetry c <? 0); reflexivity. }
  split; [apply O|]. split.
  - unfold Token, bind, cacheRead.
    destruct (Cache c) as [ca|]; [destruct (key =? "")%string|]; cbn [ret];
      try (destruct (Read ca h _)); cbn [ret]; rewrite ?O; reflexivity.
  - unfold Request, RequestWithCustomRetry. rewrite HN.
    destruct (MaxRetry c <? 0); reflexivity.
Qed.

Lemma negative_numRetry_is_MaxRetry_witness :
  RequestWithCustomRetry refusingEnv (sampleClient None) "svc" [] (-7)
    (staleService 0) []
  = Request refusingEnv (sampleClient None) "svc" [] (staleService 0) [].
Proof.
  refine (proj2 (proj2 (negative_numRetry_is_MaxRetry refusingEnv
                          (sampleClient None) "svc" [] (-7)
                          (staleService 0) [] _))).
  reflexivity.
Defined.

(** X19. [NewClient] fails exactly when one of its arguments is empty, and
    then returns no client; otherwise it returns a client and no error, with
    a budget of 5 retries and no cache, so that a request on this client has
    no cache event. *)
Theorem NewClient_validates (id secret tokenURL : string) :
  (id = "" \/ secret = "" \/ tokenURL = "" ->
   NewClient id secret tokenURL
   = (None, Some (OtherError "NewClient: missing required argument(s)")))
  /\ (id <> "" -> secret <> "" -> tokenURL <> "" ->
      exists c,
        NewClient id secret tokenURL = (Some c, None)
        /\ ClientID c = id /\ ClientSecret c = secret /\ TokenURL c = tokenURL
        /\ (forall numRetry, numRetry < 0 -> retryBudget c numRetry = 5)
        /\ forall env key scopes numRetry exec h,
             Forall (fun e => isCacheEvent e = false)
               (snd (RequestWithCustomRetry env c key scopes numRetry exec h))).
Proof.
  split.
  - intros H. unfold NewClient.
    destruct H as [-> | [-> | ->]]; cbn [String.eqb orb].
    + reflexivity.
    + now rewrite orb_true_r.
    + now rewrite orb_true_r.
  - intros H1 H2 H3. unfold NewClient.
    rewrite (nonempty_eqb _ H1), (nonempty_eqb _ H2), (nonempty_eqb _ H3).
    cbn [orb]. eexists. split; [reflexivity|]. cbn [ClientID ClientSecret TokenURL].
    repeat split.
    + intros n Hn. unfold retryBudget. apply Z.ltb_lt in Hn. now rewrite Hn.
    + intros env key scopes numRetry exec h.
      apply RequestWithCustomRetry_events_all.
      * intros retry. repeat constructor.
      * intros n h'. now apply Token_without_cache.
      * reflexivity.
Qed.

Lemma NewClient_validates_witness :
  NewClient "id" "" "https://oauth.example.com/oauth2/token"
  = (None, Some (OtherError "NewClient: missing required argument(s)"))
  /\ exists c,
       NewClient "id" "secret" "https://oauth.example.com/oauth2/token"
       = (Some c, None)
       /\ ClientID c = "id" /\ ClientSecret c = "secret"
       /\ TokenURL c = "https://oauth.example.com/oauth2/token"
       /\ (forall numRetry, numRetry < 0 -> retryBudget c numRetry = 5)
       /\ forall env key scopes numRetry exec h,
            Forall (fun e => isCacheEvent e = false)
              (snd (RequestWithCustomRetry env c key scopes numRetry exec h)).
Proof.
  split.
  - apply (proj1 (NewClient_validates "id" ""
                    "https://oauth.example.com/oauth2/token")).
    right. now left.
  - apply (proj2 (NewClient_validates "id" "secret"
                    "https://oauth.example.com/oauth2/token")); discriminate.
Defined.
